(** * FootballTalks: the match outcome prediction engine

    A shallow embedding of the prediction code of [footballtalks/app.py]:
    [recent_team_stats], [poisson_prob], [score_matrix], [outcome_probs] and
    the module-level pipeline that turns two form summaries and a weather
    description into expected goal rates, a scoreline grid, the three
    outcome probabilities and the most likely scoreline.

    Numbers.  Goal counts, points and match counts are Python integers and
    are modelled in [Z].  Python floats are modelled by the real numbers:
    rounding, overflow and signed zeros are not modelled, so every equation
    below is the exact-arithmetic reading of the float computation.  The one
    float effect that the code can run into, a numpy division by zero, is
    kept: the result of a numpy scalar division is an [np_float], which is a
    finite real, an infinity or NaN.

    Failure.  A Python exception is modelled by [None]. *)

From Stdlib Require Import String Ascii.
From Stdlib Require Import Reals Lra Lia List ZArith Bool Permutation.
Import ListNotations.

Open Scope R_scope.

(** ** Finite sums of reals *)

Definition Rsum (l : list R) : R := fold_right Rplus 0 l.

(** [sum_n n F] is F 0 + F 1 + ... + F (n-1). *)
Definition sum_n (n : nat) (F : nat -> R) : R := Rsum (map F (seq 0 n)).

(** ** Team form summarizer: [recent_team_stats] *)

Module Form.

(** The JSON object under [score.fullTime]; a missing key and a JSON null
    both read as [None] through [dict.get]. *)
Record full_time := { home : option Z; away : option Z }.

(** The fields of a match record that [recent_team_stats] reads.
    [fullTime = None] covers a missing [score] key, a missing [fullTime]
    key and a null [fullTime]; [winner = None] is a null [winner].  The
    keys that the code indexes without [get] ([homeTeam.id], [awayTeam.id]
    and, on a record with a score, [winner]) are part of every record. *)
Record match_record := {
  homeTeam_id : Z;
  awayTeam_id : Z;
  fullTime : option full_time;
  winner : option string
}.

(** The dict returned by [recent_team_stats]. *)
Record summary := {
  gf : R;
  ga : R;
  pts_per_game : R;
  form_val : R
}.

(** [dict(gf=1.2, ga=1.1, pts_per_game=1.5, form_val=0.0)] *)
Definition default_summary : summary :=
  {| gf := 1.2; ga := 1.1; pts_per_game := 1.5; form_val := 0.0 |}.

(** The test of line 134, negated: the record has a full-time dict with
    both goal counts present. *)
Definition valid_score (m : match_record) : option (Z * Z) :=
  match fullTime m with
  | Some ft =>
      match home ft, away ft with
      | Some h, Some a => Some (h, a)
      | _, _ => None
      end
  | None => None
  end.

Definition is_valid (m : match_record) : bool :=
  match valid_score m with Some _ => true | None => false end.

(** [_gf] and [_ga], on the two goal counts of a valid record. *)
Definition _gf (team_id : Z) (m : match_record) (h a : Z) : Z :=
  if (team_id =? homeTeam_id m)%Z then h else a.

Definition _ga (team_id : Z) (m : match_record) (h a : Z) : Z :=
  if (team_id =? homeTeam_id m)%Z then a else h.

(** Points awarded by lines 139-145. *)
Definition points (team_id : Z) (m : match_record) : Z :=
  match winner m with
  | Some w =>
      if String.eqb w "DRAW" then 1%Z
      else if String.eqb w "HOME_TEAM" && (team_id =? homeTeam_id m)%Z then 3%Z
      else if String.eqb w "AWAY_TEAM" && (team_id =? awayTeam_id m)%Z then 3%Z
      else 0%Z
  | None => 0%Z
  end.

(** The loop state: [gf], [ga], [pts] and [count]. *)
Record acc := { a_gf : Z; a_ga : Z; a_pts : Z; a_count : Z }.

Definition acc0 : acc := {| a_gf := 0; a_ga := 0; a_pts := 0; a_count := 0 |}.

(** One iteration of the loop of lines 132-145. *)
Definition step (team_id : Z) (s : acc) (m : match_record) : acc :=
  match valid_score m with
  | None => s
  | Some (h, a) =>
      {| a_gf := a_gf s + _gf team_id m h a;
         a_ga := a_ga s + _ga team_id m h a;
         a_pts := a_pts s + points team_id m;
         a_count := a_count s + 1 |}%Z
  end.

(** [recent_team_stats], on the list that [team_recent_matches] returned. *)
Definition recent_team_stats (team_id : Z) (matches : list match_record) : summary :=
  match matches with
  | [] => default_summary
  | _ =>
      let s := fold_left (step team_id) matches acc0 in
      let games := Z.max (a_count s) 1 in
      let ppg := IZR (a_pts s) / IZR games in
      {| gf := IZR (a_gf s) / IZR games;
         ga := IZR (a_ga s) / IZR games;
         pts_per_game := ppg;
         form_val := ppg - 1.0 |}
  end.

(** Number of valid records of a window. *)
Definition valid_count (matches : list match_record) : nat :=
  length (filter is_valid matches).

(** The summary of a team whose window is one goalless draw. *)
Definition goalless : summary :=
  {| gf := 0.0; ga := 0.0; pts_per_game := 1.0; form_val := 0.0 |}.

(** The two summaries of the end-to-end scenario: a home side with 2.0
    goals for and 1.0 against per game, an away side with 1.0 and 1.5. *)
Definition home_2_1 : summary :=
  {| gf := 2.0; ga := 1.0; pts_per_game := 2.0; form_val := 1.0 |}.

Definition away_1_15 : summary :=
  {| gf := 1.0; ga := 1.5; pts_per_game := 1.0; form_val := 0.0 |}.

(** A finished match without a full-time score. *)
Definition no_score : match_record :=
  {| homeTeam_id := 1; awayTeam_id := 2; fullTime := None; winner := None |}.

(** What one record adds to [gf], [ga] and [pts]: nothing when it has no
    score. *)
Definition goals_for (team_id : Z) (m : match_record) : Z :=
  match valid_score m with Some (h, a) => _gf team_id m h a | None => 0%Z end.

Definition goals_against (team_id : Z) (m : match_record) : Z :=
  match valid_score m with Some (h, a) => _ga team_id m h a | None => 0%Z end.

Definition points_won (team_id : Z) (m : match_record) : Z :=
  match valid_score m with Some _ => points team_id m | None => 0%Z end.

Definition Zsum (l : list Z) : Z := fold_right Z.add 0%Z l.

(** A 3-0 home win of team 1 over team 2, and a 1-1 draw at team 2. *)
Definition home_win : match_record :=
  {| homeTeam_id := 1; awayTeam_id := 2;
     fullTime := Some {| home := Some 3%Z; away := Some 0%Z |};
     winner := Some "HOME_TEAM"%string |}.

Definition away_draw : match_record :=
  {| homeTeam_id := 2; awayTeam_id := 1;
     fullTime := Some {| home := Some 1%Z; away := Some 1%Z |};
     winner := Some "DRAW"%string |}.

End Form.

(** ** Python strings: [str.split()] and [str.lower()]

    A description is a [string] whose characters are code points below
    256 (Latin-1), which covers the words the code compares with. *)

Module Str.

(** [str.isspace] on one code point below 256: TAB..CR, FS..US, SPACE,
    NEL and NBSP. *)
Definition isspace (c : ascii) : bool :=
  let n := nat_of_ascii c in
  ((9 <=? n) && (n <=? 13) || (28 <=? n) && (n <=? 32) || (n =? 133) || (n =? 160))%nat.

(** [str.lower] on one code point below 256: A..Z and the accented
    capitals 0xC0..0xDE except the multiplication sign 0xD7. *)
Definition lower_char (c : ascii) : ascii :=
  let n := nat_of_ascii c in
  if ((65 <=? n) && (n <=? 90) || (192 <=? n) && (n <=? 222) && negb (n =? 215))%nat
  then ascii_of_nat (n + 32) else c.

Fixpoint lower (s : string) : string :=
  match s with
  | EmptyString => EmptyString
  | String c s' => String (lower_char c) (lower s')
  end.

Definition is_empty (s : string) : bool :=
  match s with EmptyString => true | String _ _ => false end.

(** The words of [s] that follow the word [cur] under construction;
    [cur] is empty when no word has been started. *)
Fixpoint split_from (cur : string) (s : string) : list string :=
  match s with
  | EmptyString => if is_empty cur then [] else [cur]
  | String c s' =>
      if isspace c
      then (if is_empty cur then split_from EmptyString s'
            else cur :: split_from EmptyString s')
      else split_from (cur ++ String c EmptyString) s'
  end.

(** [s.split()]: the maximal runs of non-whitespace characters. *)
Definition split (s : string) : list string := split_from EmptyString s.

(** Some character of [s] is not whitespace. *)
Fixpoint has_word (s : string) : bool :=
  match s with
  | EmptyString => false
  | String c s' => negb (isspace c) || has_word s'
  end.

End Str.

(** ** Expected goal rates: lines 225-229 of the module-level code *)

Module Rates.

Import Form.

(** Lines 225-226: the floored rates, the home one with its advantage
    factor. *)
Definition base_rates (hs as_ : summary) : R * R :=
  (Rmax 0.2 (0.65 * gf hs + 0.35 * ga as_) * 1.12,
   Rmax 0.2 (0.65 * gf as_ + 0.35 * ga hs)).

(** [w in ("rain", "snow")] *)
Definition rain_or_snow (w : string) : bool :=
  String.eqb w "rain" || String.eqb w "snow".

(** The test of line 227; [None] is the [IndexError] of [desc.split()[0]]
    on a description without a word. *)
Definition dampened (desc : string) : option bool :=
  match Str.split desc with
  | [] => None
  | w :: _ => Some (rain_or_snow (Str.lower w))
  end.

(** Lines 225-229: [lh] and [la] as passed to [score_matrix]. *)
Definition estimate (hs as_ : summary) (desc : string) : option (R * R) :=
  let '(lh, la) := base_rates hs as_ in
  match dampened desc with
  | None => None
  | Some d =>
      let '(lh, la) := if d then (lh * 0.95, la * 0.95) else (lh, la) in
      Some (Rmin lh 3.2, Rmin la 3.2)
  end.

End Rates.

(** ** numpy arrays of two dimensions *)

Module Np.

(** The value of a numpy float64 scalar division. *)
Inductive np_float :=
| Finite (x : R)
| PosInf
| NegInf
| NaN.

(** [x / s] on float64 scalars: numpy warns and does not raise when the
    divisor is zero. *)
Definition np_div (x s : R) : np_float :=
  if Req_dec_T s 0
  then (if Req_dec_T x 0 then NaN else if Rlt_dec 0 x then PosInf else NegInf)
  else Finite (x / s).

Definition is_finite (x : np_float) : Prop :=
  match x with Finite _ => True | _ => False end.

(** A C-contiguous array: its shape and its row-major buffer. *)
Record ndarray := { shape : nat * nat; data : list R }.

Definition rows (g : ndarray) : nat := fst (shape g).
Definition cols (g : ndarray) : nat := snd (shape g).

(** The buffer has one entry per cell. *)
Definition wf (g : ndarray) : Prop := length (data g) = (rows g * cols g)%nat.

(** The cell [g[h, a]] of the buffer. *)
Definition cell (g : ndarray) (h a : nat) : R := nth (h * cols g + a) (data g) 0.

Fixpoint upd (i : nat) (v : R) (l : list R) : list R :=
  match l, i with
  | [], _ => []
  | _ :: t, O => v :: t
  | x :: t, S i' => x :: upd i' v t
  end.

(** [np.zeros((r, c))] *)
Definition np_zeros (r c : nat) : ndarray :=
  {| shape := (r, c); data := repeat 0 (r * c) |}.

(** [g[h, a] = v]; [None] is the [IndexError] of an index out of range. *)
Definition setitem (g : ndarray) (h a : nat) (v : R) : option ndarray :=
  if ((h <? rows g) && (a <? cols g))%nat
  then Some {| shape := shape g; data := upd (h * cols g + a) v (data g) |}
  else None.

Fixpoint mapi_from (i : nat) (f : nat -> R -> R) (l : list R) : list R :=
  match l with
  | [] => []
  | x :: t => f i x :: mapi_from (S i) f t
  end.

(** Row and column of the flat index [i] in an array with [c] columns. *)
Definition coords (c i : nat) : nat * nat := ((i / c)%nat, (i mod c)%nat).

(** [np.tril(g, k)]: the entries above the [k]-th diagonal are zeroed. *)
Definition np_tril (g : ndarray) (k : Z) : ndarray :=
  {| shape := shape g;
     data := mapi_from 0
               (fun i x => let '(h, a) := coords (cols g) i in
                           if (Z.of_nat a <=? Z.of_nat h + k)%Z then x else 0)
               (data g) |}.

(** [np.triu(g, k)]: the entries below the [k]-th diagonal are zeroed. *)
Definition np_triu (g : ndarray) (k : Z) : ndarray :=
  {| shape := shape g;
     data := mapi_from 0
               (fun i x => let '(h, a) := coords (cols g) i in
                           if (Z.of_nat h + k <=? Z.of_nat a)%Z then x else 0)
               (data g) |}.

(** [g.sum()] *)
Definition np_sum (g : ndarray) : R := Rsum (data g).

(** [np.trace(g)]: the sum of [g[i, i]] over the main diagonal. *)
Definition np_trace (g : ndarray) : R :=
  sum_n (Nat.min (rows g) (cols g)) (fun i => cell g i i).

(** The scan of [np.argmax]: a later entry replaces the best one only
    when it is strictly larger. *)
Fixpoint argmax_from (best_i : nat) (best : R) (i : nat) (l : list R) : nat :=
  match l with
  | [] => best_i
  | x :: t =>
      if Rlt_dec best x then argmax_from i x (S i) t
      else argmax_from best_i best (S i) t
  end.

(** [np.argmax(g)], an index of the flattened array; [None] is the
    [ValueError] on an empty array. *)
Definition np_argmax (g : ndarray) : option nat :=
  match data g with
  | [] => None
  | x :: t => Some (argmax_from 0 x 1 t)
  end.

(** [np.unravel_index(i, shape)]; [None] is the [ValueError] of an index
    out of bounds. *)
Definition np_unravel_index (i : nat) (sh : nat * nat) : option (nat * nat) :=
  if (i <? fst sh * snd sh)%nat then Some (coords (snd sh) i) else None.

End Np.

(** ** The Poisson grid, the outcome probabilities and the pipeline *)

Module Engine.

Import Np.

(** [for x in xs: s = body(x, s)], stopping at the first exception. *)
Fixpoint for_each {S : Type} (xs : list nat) (body : nat -> S -> option S) (s : S)
  : option S :=
  match xs with
  | [] => Some s
  | x :: xs' =>
      match body x s with
      | Some s' => for_each xs' body s'
      | None => None
      end
  end.

(** [range(n)] *)
Definition range (n : nat) : list nat := seq 0 n.

(** [math.exp(-lam) * (lam**k) / math.factorial(k)] *)
Definition poisson_prob (k : nat) (lam : R) : R :=
  exp (- lam) * lam ^ k / INR (fact k).

(** [score_matrix(lh, la, max_goals)] *)
Definition score_matrix (lh la : R) (max_goals : nat) : option ndarray :=
  for_each (range (max_goals + 1))
    (fun h g =>
       for_each (range (max_goals + 1))
         (fun a g => setitem g h a (poisson_prob h lh * poisson_prob a la))
         g)
    (np_zeros (max_goals + 1) (max_goals + 1)).

(** The three raw sums of [outcome_probs]. *)
Definition raw_home (g : ndarray) : R := np_sum (np_tril g (-1)).
Definition raw_draw (g : ndarray) : R := np_trace g.
Definition raw_away (g : ndarray) : R := np_sum (np_triu g 1).

(** [outcome_probs(g)] *)
Definition outcome_probs (g : ndarray) : np_float * np_float * np_float :=
  let home := raw_home g in
  let draw := raw_draw g in
  let away := raw_away g in
  let s := home + draw + away in
  (np_div home s, np_div draw s, np_div away s).

(** Line 232: [np.unravel_index(np.argmax(grid), grid.shape)] *)
Definition most_likely_scoreline (g : ndarray) : option (nat * nat) :=
  match np_argmax g with
  | Some i => np_unravel_index i (shape g)
  | None => None
  end.

(** What lines 225-232 compute. *)
Record prediction := {
  lh : R;
  la : R;
  probs : np_float * np_float * np_float;
  scoreline : nat * nat
}.

(** Lines 225-232, from the two summaries and the weather description. *)
Definition predict (hs as_ : Form.summary) (desc : string) : option prediction :=
  match Rates.estimate hs as_ desc with
  | None => None
  | Some (lh, la) =>
      match score_matrix lh la 6 with
      | None => None
      | Some grid =>
          match most_likely_scoreline grid with
          | None => None
          | Some hi_ai =>
              Some {| lh := lh; la := la;
                      probs := outcome_probs grid;
                      scoreline := hi_ai |}
          end
      end
  end.

(** Line 224: the two summaries, [recent id] being the window that
    [team_recent_matches(id, 8)] returns.  The away id is [None] when the
    match has no away team or its object has no "id" key; the home id then
    stands in for it.  An away team whose id is null is not covered. *)
Definition form_pair (recent : Z -> list Form.match_record)
    (home_id : Z) (away_id : option Z) : Form.summary * Form.summary :=
  let away_key := match away_id with Some i => i | None => home_id end in
  (Form.recent_team_stats home_id (recent home_id),
   Form.recent_team_stats away_key (recent away_key)).

(** Lines 224-232. *)
Definition predict_match (recent : Z -> list Form.match_record)
    (home_id : Z) (away_id : option Z) (desc : string) : option prediction :=
  let '(hs, as_) := form_pair recent home_id away_id in
  predict hs as_ desc.

(** *** The aggregation as the specification words it *)

(** The sum of the cells [g[h, a]] whose coordinates satisfy [keep]. *)
Definition sum_cells (keep : nat -> nat -> bool) (g : ndarray) : R :=
  sum_n (rows g) (fun h => sum_n (cols g) (fun a => if keep h a then cell g h a else 0)).

(** Cells strictly below the main diagonal: home goals > away goals. *)
Definition below_diagonal (g : ndarray) : R := sum_cells (fun h a => (a <? h)%nat) g.

(** Cells of the main diagonal: home goals = away goals. *)
Definition on_diagonal (g : ndarray) : R := sum_cells (fun h a => (a =? h)%nat) g.

(** Cells strictly above the main diagonal: home goals < away goals. *)
Definition above_diagonal (g : ndarray) : R := sum_cells (fun h a => (h <? a)%nat) g.

(** The total mass of the three raw sums. *)
Definition total_mass (g : ndarray) : R :=
  below_diagonal g + on_diagonal g + above_diagonal g.

(** Loop invariant of [score_matrix]: [g] is a well-formed [n] x [n] array
    whose cells before [(h, a)] in row-major order hold their value [F]. *)
Definition filled_upto (n : nat) (F : nat -> nat -> R) (g : ndarray) (h a : nat) : Prop :=
  shape g = (n, n) /\ wf g /\
  forall h' a', (h' < n)%nat -> (a' < n)%nat ->
    (h' < h \/ (h' = h /\ a' < a))%nat -> cell g h' a' = F h' a'.

(** A 2 x 2 grid whose maximum 0.3 is attained at (0,0) and at (1,1). *)
Definition tie_grid : ndarray :=
  {| shape := (2%nat, 2%nat); data := [0.3; 0.2; 0.2; 0.3] |}.

(** A grid without any mass. *)
Definition zero_grid : ndarray := np_zeros 2 2.

End Engine.

(** ** JSON values as Python reads them *)

Module Json.

(** A decoded JSON document: [None], [bool], [int], [float], [str],
    [list] and [dict].  A dict is the list of its items in insertion
    order, and the first binding of a key is the one that counts. *)
#[warnings="-register-all"]
Inductive json :=
| JNull
| JBool (b : bool)
| JInt (z : Z)
| JFloat (x : R)
| JStr (s : string)
| JList (l : list json)
| JObj (kv : list (string * json)).

(** The exceptions that the adapters can raise on a decoded document. *)
Inductive py_exn := TypeError | AttributeError | KeyError | IndexError | ValueError.

(** A call either returns or raises. *)
Inductive outcome (A : Type) :=
| Returned (x : A)
| Threw (e : py_exn).

Arguments Returned {A} x.
Arguments Threw {A} e.

(** [bool(j)], the test behind [if j] and [not j]. *)
Definition truthy (j : json) : bool :=
  match j with
  | JNull => false
  | JBool b => b
  | JInt z => negb (z =? 0)%Z
  | JFloat x => if Req_dec_T x 0 then false else true
  | JStr s => negb (Str.is_empty s)
  | JList l => match l with [] => false | _ => true end
  | JObj kv => match kv with [] => false | _ => true end
  end.

(** [d.get(k)] on the items of a dict. *)
Fixpoint lookup (k : string) (kv : list (string * json)) : option json :=
  match kv with
  | [] => None
  | (k', v) :: rest => if String.eqb k k' then Some v else lookup k rest
  end.

(** [pat in s] on two strings. *)
Fixpoint contains (pat s : string) : bool :=
  String.prefix pat s ||
  match s with
  | EmptyString => false
  | String _ s' => contains pat s'
  end.

Definition is_str (k : string) (j : json) : bool :=
  match j with JStr s => String.eqb k s | _ => false end.

(** [k in j] for a string [k]: a key of a dict, an element of a list, a
    substring of a string; the other values are not iterable. *)
Definition py_in (k : string) (j : json) : outcome bool :=
  match j with
  | JObj kv => Returned (match lookup k kv with Some _ => true | None => false end)
  | JList l => Returned (existsb (is_str k) l)
  | JStr s => Returned (contains k s)
  | _ => Threw TypeError
  end.

(** [j[k]] for a string [k]. *)
Definition getitem_str (j : json) (k : string) : outcome json :=
  match j with
  | JObj kv => match lookup k kv with Some v => Returned v | None => Threw KeyError end
  | _ => Threw TypeError
  end.

(** [j[0]] *)
Definition getitem_0 (j : json) : outcome json :=
  match j with
  | JList l => match l with x :: _ => Returned x | [] => Threw IndexError end
  | JStr s =>
      match s with
      | String c _ => Returned (JStr (String c EmptyString))
      | EmptyString => Threw IndexError
      end
  | JObj _ => Threw KeyError
  | _ => Threw TypeError
  end.

(** [j.get(k)]; only a dict has the method. *)
Definition py_get (j : json) (k : string) : outcome (option json) :=
  match j with
  | JObj kv => Returned (lookup k kv)
  | _ => Threw AttributeError
  end.

(** The values that [for c in j] yields. *)
Definition py_iter (j : json) : outcome (list json) :=
  match j with
  | JList l => Returned l
  | JObj kv => Returned (map (fun item => JStr (fst item)) kv)
  | JStr s => Returned (map (fun c => JStr (String c EmptyString)) (list_ascii_of_string s))
  | _ => Threw TypeError
  end.

Definition bind {A B : Type} (x : outcome A) (f : A -> outcome B) : outcome B :=
  match x with
  | Returned a => f a
  | Threw e => Threw e
  end.

End Json.

(** ** The adapters: fetching and unpacking the API answers *)

Module Adapters.

Import Json.

(** What one call of [requests.get] followed by [r.json()] can do: raise,
    or answer with a status code and a body that decodes or does not. *)
Inductive attempt :=
| Raised
| Response (status_code : Z) (body : option json).

(** The effects of [get_json]: the number of requests sent and the number
    of calls of [time.sleep(0.6)]. *)
Record io := { requested : nat; slept : nat }.

Definition sent (st : io) : io :=
  {| requested := S (requested st); slept := slept st |}.

Definition sleep (st : io) : io :=
  {| requested := requested st; slept := S (slept st) |}.

(** The document that an attempt delivers, when it does. *)
Definition answer_of (a : attempt) : option json :=
  match a with
  | Response code (Some j) => if (code =? 200)%Z then Some j else None
  | _ => None
  end.

(** The loop of [get_json] in [app.py]; [net k] is what the request
    number [k] runs into and [fuel] the number of rounds left. *)
Fixpoint get_json_loop (net : nat -> attempt) (fuel : nat) (st : io) : json * io :=
  match fuel with
  | O => (JNull, st)
  | S fuel' =>
      match net (requested st) with
      | Response code body =>
          if (code =? 200)%Z
          then match body with
               | Some j => (j, sent st)
               | None => get_json_loop net fuel' (sleep (sent st))
               end
          else get_json_loop net fuel' (sleep (sent st))
      | Raised => get_json_loop net fuel' (sleep (sent st))
      end
  end.

(** [get_json(url, headers, retry)] of [app.py]; Python's [None] is
    [JNull]. *)
Definition get_json (net : nat -> attempt) (retry : Z) : json * io :=
  get_json_loop net (Z.to_nat (retry + 1)) {| requested := 0; slept := 0 |}.

(** [get_json(url, headers)] of [utils/api_helpers.py]: one request, no
    retry. *)
Definition helper_get_json (a : attempt) : json :=
  match a with
  | Response code body =>
      if (code =? 200)%Z
      then match body with Some j => j | None => JNull end
      else JNull
  | Raised => JNull
  end.

(** Lines 63-65 of [team_recent_matches], on the document fetched. *)
Definition recent_matches_of (j : json) : outcome (list json) :=
  if negb (truthy j) then Returned []
  else
    bind (py_in "matches" j) (fun present =>
    if negb present then Returned []
    else
      bind (getitem_str j "matches") (fun v =>
      match v with
      | JList l => Returned l
      | _ => Returned []
      end)).

(** [team_recent_matches(team_id, limit)], [net] being the network behind
    its URL. *)
Definition team_recent_matches (net : nat -> attempt) : outcome (list json) :=
  recent_matches_of (fst (get_json net 2)).

(** The statuses that [list_matches_any_status] asks for, in its order. *)
Definition statuses : list string :=
  ["LIVE"; "SCHEDULED"; "IN_PLAY"; "PAUSED"; "TIMED"; "FINISHED"]%string.

(** The test of line 55: [Some l] when the document holds the non-empty
    list [l] of matches. *)
Definition matches_hit (j : json) : outcome (option (list json)) :=
  if negb (truthy j) then Returned None
  else
    bind (py_get j "matches") (fun v =>
    match v with
    | Some (JList l) => Returned (if (0 <? length l)%nat then Some l else None)
    | _ => Returned None
    end).

(** The loop of lines 53-57 over the statuses left. *)
Fixpoint first_hit (answer : string -> json) (sts : list string)
  : outcome (list json) :=
  match sts with
  | [] => Returned []
  | status :: rest =>
      match matches_hit (answer status) with
      | Returned (Some l) => Returned l
      | Returned None => first_hit answer rest
      | Threw e => Threw e
      end
  end.

(** [list_matches_any_status(comp_code)], [net status] being the network
    behind the URL of that status. *)
Definition list_matches_any_status (net : string -> nat -> attempt)
  : outcome (list json) :=
  first_hit (fun status => fst (get_json (net status) 2)) statuses.

(** The tuple that [get_weather] falls back to. *)
Definition default_weather : json * R * Z := (JStr "unknown", 18.0, 60%Z).

(** Lines 107-113 of [get_weather], on the document fetched.  The
    builtins [float] and [int] on a decoded value are the parameters
    [py_float] and [py_int]. *)
Definition weather_of (py_float : json -> outcome R) (py_int : json -> outcome Z)
    (j : json) : outcome (json * R * Z) :=
  if negb (truthy j) then Returned default_weather
  else
    bind (py_in "weather" j) (fun has_weather =>
    if negb has_weather then Returned default_weather
    else
      bind (py_in "main" j) (fun has_main =>
      if negb has_main then Returned default_weather
      else
        bind (getitem_str j "weather") (fun w =>
        bind (getitem_0 w) (fun w0 =>
        bind (getitem_str w0 "description") (fun desc =>
        bind (getitem_str j "main") (fun main =>
        bind (getitem_str main "temp") (fun t =>
        bind (py_float t) (fun temp =>
        bind (getitem_str main "humidity") (fun h =>
        bind (py_int h) (fun hum =>
        Returned (desc, temp, hum))))))))))).

(** [get_weather(lat, lon)]; [weather_key] is the value of the
    environment variable, [None] when it is not set. *)
Definition get_weather (py_float : json -> outcome R) (py_int : json -> outcome Z)
    (weather_key : option string) (net : nat -> attempt) : outcome (json * R * Z) :=
  match weather_key with
  | None => Returned default_weather
  | Some key =>
      if Str.is_empty key then Returned default_weather
      else weather_of py_float py_int (fst (get_json net 2))
  end.

(** [c.get("plan") == "TIER_ONE"] *)
Definition is_tier_one (c : json) : outcome bool :=
  bind (py_get c "plan") (fun v =>
  Returned (match v with Some (JStr s) => String.eqb s "TIER_ONE" | _ => false end)).

(** The list comprehension of line 46. *)
Fixpoint tier_one_of (cs : list json) : outcome (list json) :=
  match cs with
  | [] => Returned []
  | c :: rest =>
      bind (is_tier_one c) (fun keep =>
      bind (tier_one_of rest) (fun kept =>
      Returned (if keep then c :: kept else kept)))
  end.

(** [d[k] = v] on the items of a dict: a key that is present keeps its
    place. *)
Fixpoint dict_set (k : string) (v : json) (d : list (string * json))
  : list (string * json) :=
  match d with
  | [] => [(k, v)]
  | (k', v') :: rest =>
      if String.eqb k k' then (k, v) :: rest else (k', v') :: dict_set k v rest
  end.

(** The key of line 47, [f"{c['name']} ({c['code']})"]; [py_str] is the
    builtin [str] on a decoded value. *)
Definition label (py_str : json -> string) (name code : json) : string :=
  (py_str name ++ " (" ++ py_str code ++ ")")%string.

(** The dict comprehension of line 47, started from the dict [d]. *)
Fixpoint labelled (py_str : json -> string) (comps : list json)
    (d : list (string * json)) : outcome (list (string * json)) :=
  match comps with
  | [] => Returned d
  | c :: rest =>
      bind (getitem_str c "name") (fun name =>
      bind (getitem_str c "code") (fun code =>
      labelled py_str rest (dict_set (label py_str name code) code d)))
  end.

(** Lines 44-47 of [list_competitions], on the document fetched. *)
Definition competitions_of (py_str : json -> string) (j : json)
  : outcome (list (string * json)) :=
  if negb (truthy j) then Returned []
  else
    bind (getitem_str j "competitions") (fun v =>
    bind (py_iter v) (fun cs =>
    bind (tier_one_of cs) (fun comps =>
    labelled py_str comps []))).

(** [list_competitions()] *)
Definition list_competitions (py_str : json -> string) (net : nat -> attempt)
  : outcome (list (string * json)) :=
  competitions_of py_str (fst (get_json net 2)).

(** The plan of the competition object with the items [kv] is
    TIER_ONE. *)
Definition tier_one (kv : list (string * json)) : bool :=
  match lookup "plan" kv with
  | Some (JStr s) => String.eqb s "TIER_ONE"
  | _ => false
  end.

(** A competition object. *)
Definition competition (name code plan : string) : json :=
  JObj [("name"%string, JStr name); ("code"%string, JStr code);
        ("plan"%string, JStr plan)].

(** Documents for the examples: an answer with two matches, an answer
    with none, and networks that deliver them or fail. *)
Definition two_matches : json :=
  JObj [("count"%string, JInt 2);
        ("matches"%string, JList [JObj [("id"%string, JInt 7)];
                                  JObj [("id"%string, JInt 8)]])].

Definition no_matches : json := JObj [("matches"%string, JList [])].

Definition down : nat -> attempt := fun _ => Raised.

Definition flaky (j : json) : nat -> attempt :=
  fun k => match k with
           | O => Raised
           | 1%nat => Response 503 None
           | _ => Response 200 (Some j)
           end.

End Adapters.

(** * Properties *)

(** ** The form summarizer *)

Section FormFacts.

Import Form.

Variable team_id : Z.

Lemma step_invalid s m : is_valid m = false -> step team_id s m = s.
Proof.
  unfold is_valid, step.
  destruct (valid_score m) as [[h a]|]; [discriminate | reflexivity].
Qed.

Lemma fold_invalid matches s :
  valid_count matches = 0%nat -> fold_left (step team_id) matches s = s.
Proof.
  unfold valid_count. revert s.
  induction matches as [|m ms IH]; intros s Hc; [reflexivity|].
  cbn [filter] in Hc. destruct (is_valid m) eqn:Hm; [discriminate Hc|].
  cbn [fold_left]. rewrite step_invalid by exact Hm. now apply IH.
Qed.

(** Without a valid record the four accumulators keep their initial
    value and the averages are taken over [max(0, 1) = 1] game. *)
Lemma stats_all_invalid m ms :
  valid_count (m :: ms) = 0%nat ->
  recent_team_stats team_id (m :: ms) =
  {| gf := 0.0; ga := 0.0; pts_per_game := 0.0; form_val := -1.0 |}.
Proof.
  intros Hc. unfold recent_team_stats.
  rewrite (fold_invalid (m :: ms) acc0 Hc).
  cbn [acc0 a_gf a_ga a_pts a_count].
  change (Z.max 0 1) with 1%Z.
  f_equal; lra.
Qed.

End FormFacts.

(** C1, as stated, fails: a window whose only record has no full-time
    score has zero valid matches, and the summary is not the default one. *)
Lemma C1_counterexample :
  Form.valid_count [Form.no_score] = 0%nat /\
  Form.recent_team_stats 1 [Form.no_score] <> Form.default_summary.
Proof.
  split; [reflexivity|].
  rewrite stats_all_invalid by reflexivity.
  intros H. apply (f_equal Form.gf) in H. cbn [Form.gf Form.default_summary] in H. lra.
Qed.

(** C1, amended: on the empty window [recent_team_stats] returns the
    default summary (1.2, 1.1, 1.5, 0.0); on a non-empty window without
    any valid record it returns (0.0, 0.0, 0.0, -1.0), the averages of the
    zero accumulators over [max(count, 1) = 1] game. *)
Theorem C1_no_valid_match (team_id : Z) (matches : list Form.match_record) :
  Form.valid_count matches = 0%nat ->
  (matches = [] -> Form.recent_team_stats team_id matches = Form.default_summary) /\
  (matches <> [] ->
   Form.recent_team_stats team_id matches =
   {| Form.gf := 0.0; Form.ga := 0.0; Form.pts_per_game := 0.0; Form.form_val := -1.0 |}).
Proof.
  intros Hc. split.
  - intros ->. reflexivity.
  - destruct matches as [|m ms]; [congruence|].
    intros _. now apply stats_all_invalid.
Qed.

Lemma C1_no_valid_match_witness :
  Form.recent_team_stats 7 [Form.no_score; Form.no_score] =
  {| Form.gf := 0.0; Form.ga := 0.0; Form.pts_per_game := 0.0; Form.form_val := -1.0 |}.
Proof.
  apply (C1_no_valid_match 7 [Form.no_score; Form.no_score]).
  - reflexivity.
  - discriminate.
Defined.

(** ** Splitting a description into words *)

Section StrFacts.

Import Str.

Lemma append_char_not_empty cur c : is_empty (cur ++ String c EmptyString) = false.
Proof. destruct cur; reflexivity. Qed.

(** [split_from] yields no word exactly when no word was started and the
    rest of the string is whitespace. *)
Lemma split_from_nil s : forall cur,
  split_from cur s = [] <-> is_empty cur = true /\ has_word s = false.
Proof.
  induction s as [|c s IH]; intros cur; cbn [split_from has_word].
  - destruct (is_empty cur); split; intros H; try discriminate; try easy.
  - destruct (isspace c); cbn [negb orb].
    + destruct (is_empty cur) eqn:E.
      * rewrite IH. cbn [is_empty]. tauto.
      * split; [discriminate | intros [H _]; discriminate].
    + rewrite IH, append_char_not_empty.
      split; intros [H1 H2]; discriminate.
Qed.

Lemma split_nil s : split s = [] <-> has_word s = false.
Proof.
  unfold split. rewrite split_from_nil. cbn [is_empty]. tauto.
Qed.

Lemma split_cons s : has_word s = true -> exists w ws, split s = w :: ws.
Proof.
  intros H. destruct (split s) as [|w ws] eqn:E; [|eauto].
  apply split_nil in E. congruence.
Qed.

End StrFacts.

(** ** The expected goal rates *)

Section RatesFacts.

Import Form Rates.

Ltac minmax := unfold Rmax, Rmin; repeat destruct (Rle_dec _ _); lra.

Lemma dampened_none desc : dampened desc = None <-> Str.has_word desc = false.
Proof.
  unfold dampened. rewrite <- split_nil.
  destruct (Str.split desc); split; intros H; congruence.
Qed.

Lemma dampened_some desc :
  Str.has_word desc = true -> exists d, dampened desc = Some d.
Proof.
  intros H. destruct (dampened desc) as [d|] eqn:E; [eauto|].
  apply dampened_none in E. congruence.
Qed.

(** [estimate] in terms of the two earlier stages. *)
Lemma estimate_eq hs as_ desc d :
  dampened desc = Some d ->
  estimate hs as_ desc =
  Some (Rmin ((if d then 0.95 else 1) * fst (base_rates hs as_)) 3.2,
        Rmin ((if d then 0.95 else 1) * snd (base_rates hs as_)) 3.2).
Proof.
  intros Hd. unfold estimate, base_rates. rewrite Hd. cbn [fst snd].
  destruct d; cbv iota beta; f_equal; f_equal; f_equal; lra.
Qed.

Lemma estimate_none hs as_ desc : dampened desc = None -> estimate hs as_ desc = None.
Proof. intros Hd. unfold estimate, base_rates. now rewrite Hd. Qed.

Lemma base_rates_floor hs as_ :
  0.224 <= fst (base_rates hs as_) /\ 0.2 <= snd (base_rates hs as_).
Proof. unfold base_rates. cbn [fst snd]. split; minmax. Qed.

(** Both rates are positive and capped, whatever the summaries hold. *)
Lemma estimate_bounds hs as_ desc lh la :
  estimate hs as_ desc = Some (lh, la) ->
  0.2128 <= lh <= 3.2 /\ 0.19 <= la <= 3.2.
Proof.
  intros He. destruct (dampened desc) as [d|] eqn:Hd.
  - rewrite (estimate_eq hs as_ desc d Hd) in He.
    injection He as <- <-.
    destruct (base_rates_floor hs as_) as [Hh Ha].
    destruct d; split; minmax.
  - rewrite estimate_none in He by exact Hd. discriminate.
Qed.

Lemma rain_or_snow_true w : rain_or_snow w = true <-> w = "rain"%string \/ w = "snow"%string.
Proof.
  unfold rain_or_snow. rewrite orb_true_iff, !String.eqb_eq. tauto.
Qed.

Lemma dampened_split desc w ws :
  Str.split desc = w :: ws -> dampened desc = Some (rain_or_snow (Str.lower w)).
Proof. intros H. unfold dampened. now rewrite H. Qed.

Lemma estimate_clear hs as_ :
  estimate hs as_ "clear" =
  Some (Rmin (fst (base_rates hs as_)) 3.2, Rmin (snd (base_rates hs as_)) 3.2).
Proof.
  rewrite (estimate_eq hs as_ "clear" false) by reflexivity.
  repeat f_equal; lra.
Qed.

End RatesFacts.

(** C2, as stated, fails: with the summaries of two teams whose windows
    are goalless draws (all fields non-negative) and the description
    "rain", the away rate is 0.19, below 0.2. *)
Lemma C2_counterexample :
  (0 <= Form.gf Form.goalless /\ 0 <= Form.ga Form.goalless /\
   0 <= Form.pts_per_game Form.goalless /\ 0 <= Form.form_val Form.goalless) /\
  Rates.estimate Form.goalless Form.goalless "rain" = Some (0.2128, 0.19) /\
  ~ (0.2 <= 0.19 <= 3.2).
Proof.
  split; [|split].
  - cbn [Form.gf Form.ga Form.pts_per_game Form.form_val Form.goalless]. lra.
  - rewrite (estimate_eq _ _ "rain" true) by reflexivity.
    unfold Rates.base_rates. cbn [fst snd Form.gf Form.ga Form.goalless].
    f_equal. f_equal; unfold Rmax, Rmin; repeat destruct (Rle_dec _ _); lra.
  - lra.
Qed.

(** C2, amended: for every pair of form summaries and every weather
    description on which the estimator returns, the home rate satisfies
    0.2 <= lh <= 3.2 and the away rate satisfies 0.19 <= la <= 3.2; the
    away rate is at least 0.2 when the first word of the description is
    neither "rain" nor "snow".  The floor of 0.2 is applied before the
    0.95 weather factor. *)
Theorem C2_rate_bounds (hs as_ : Form.summary) (desc : string) (lh la : R) :
  Rates.estimate hs as_ desc = Some (lh, la) ->
  0.2 <= lh <= 3.2 /\ 0.19 <= la <= 3.2 /\
  (Rates.dampened desc = Some false -> 0.2 <= la).
Proof.
  intros He.
  destruct (estimate_bounds hs as_ desc lh la He) as [Hh Ha].
  repeat split; try lra.
  intros Hd. rewrite (estimate_eq hs as_ desc false Hd) in He.
  injection He as <- <-.
  clear Hh Ha. unfold Rmin, Rmax. repeat destruct (Rle_dec _ _); lra.
Qed.

Lemma C2_rate_bounds_witness :
  0.2 <= 0.2128 <= 3.2 /\ 0.19 <= 0.19 <= 3.2 /\
  (Rates.dampened "rain" = Some false -> 0.2 <= 0.19).
Proof.
  apply (C2_rate_bounds Form.goalless Form.goalless "rain").
  rewrite (estimate_eq _ _ "rain" true) by reflexivity.
  unfold Rates.base_rates. cbn [fst snd Form.gf Form.ga Form.goalless].
  f_equal. f_equal; unfold Rmax, Rmin; repeat destruct (Rle_dec _ _); lra.
Defined.

(** C3, as stated, fails: the first word of "light rain" is "light", so
    the rates are those of "clear", not 0.95 times them. *)
Lemma C3_counterexample :
  exists lh la,
    Rates.estimate Form.default_summary Form.default_summary "clear" = Some (lh, la) /\
    Rates.estimate Form.default_summary Form.default_summary "light rain" = Some (lh, la) /\
    lh <> 0.95 * lh /\ la <> 0.95 * la.
Proof.
  exists 1.3048, 1.165.
  assert (E : Rates.estimate Form.default_summary Form.default_summary "clear"
              = Some (1.3048, 1.165)).
  { rewrite estimate_clear. unfold Rates.base_rates.
    cbn [fst snd Form.gf Form.ga Form.default_summary].
    f_equal. f_equal; unfold Rmax, Rmin; repeat destruct (Rle_dec _ _); lra. }
  split; [exact E|]. split; [|lra].
  rewrite <- E.
  rewrite (estimate_eq _ _ "light rain" false), (estimate_eq _ _ "clear" false)
    by reflexivity.
  reflexivity.
Qed.

(** C3, amended: the 0.95 dampening fires exactly when the lowercase first
    word of the description is "rain" or "snow".  For every pair of form
    summaries the rates for "light rain" (first word "light") equal those
    for "clear", as do the rates for every description whose first word is
    neither; for a description whose first word is "rain" or "snow", each
    rate equals 0.95 times the rate for "clear" provided the undampened
    rates do not exceed the cap of 3.2. *)
Theorem C3_weather_dampening (hs as_ : Form.summary) :
  Rates.estimate hs as_ "light rain" = Rates.estimate hs as_ "clear" /\
  (forall desc w ws,
     Str.split desc = w :: ws ->
     ~ (Str.lower w = "rain"%string \/ Str.lower w = "snow"%string) ->
     Rates.estimate hs as_ desc = Rates.estimate hs as_ "clear") /\
  (forall desc w ws,
     Str.split desc = w :: ws ->
     Str.lower w = "rain"%string \/ Str.lower w = "snow"%string ->
     fst (Rates.base_rates hs as_) <= 3.2 ->
     snd (Rates.base_rates hs as_) <= 3.2 ->
     exists lh la,
       Rates.estimate hs as_ "clear" = Some (lh, la) /\
       Rates.estimate hs as_ desc = Some (0.95 * lh, 0.95 * la)).
Proof.
  split; [|split].
  - rewrite (estimate_eq _ _ "light rain" false), (estimate_eq _ _ "clear" false)
      by reflexivity.
    reflexivity.
  - intros desc w ws Hs Hw.
    assert (Hd : Rates.dampened desc = Some false).
    { rewrite (dampened_split desc w ws Hs). f_equal.
      destruct (Rates.rain_or_snow (Str.lower w)) eqn:E; [|reflexivity].
      apply rain_or_snow_true in E. contradiction. }
    rewrite (estimate_eq _ _ desc false Hd), (estimate_eq _ _ "clear" false)
      by reflexivity.
    reflexivity.
  - intros desc w ws Hs Hw Hh Ha.
    assert (Hd : Rates.dampened desc = Some true).
    { rewrite (dampened_split desc w ws Hs). f_equal.
      now apply rain_or_snow_true. }
    rewrite estimate_clear, (estimate_eq _ _ desc true Hd).
    destruct (base_rates_floor hs as_) as [Fh Fa].
    eexists _, _. split; [reflexivity|].
    f_equal. f_equal; unfold Rmin; repeat destruct (Rle_dec _ _); lra.
Qed.

Lemma C3_weather_dampening_witness :
  exists lh la,
    Rates.estimate Form.default_summary Form.default_summary "clear" = Some (lh, la) /\
    Rates.estimate Form.default_summary Form.default_summary "Snow showers"
    = Some (0.95 * lh, 0.95 * la).
Proof.
  apply (proj2 (proj2 (C3_weather_dampening Form.default_summary Form.default_summary))
           "Snow showers"%string "Snow"%string ["showers"%string]).
  - reflexivity.
  - right. reflexivity.
  - unfold Rates.base_rates. cbn [fst snd Form.gf Form.ga Form.default_summary].
    unfold Rmax. destruct (Rle_dec _ _); lra.
  - unfold Rates.base_rates. cbn [fst snd Form.gf Form.ga Form.default_summary].
    unfold Rmax. destruct (Rle_dec _ _); lra.
Defined.

(** C8, as stated, fails: on the empty description [desc.split()[0]]
    raises [IndexError] and no rates are returned. *)
Lemma C8_counterexample :
  Rates.estimate Form.default_summary Form.default_summary "" = None.
Proof. apply estimate_none. reflexivity. Qed.

(** C8, amended: for every pair of form summaries and every weather
    description that contains at least one non-whitespace character the
    estimator returns a pair of rates, and equal inputs give equal rates;
    on an empty or all-whitespace description it raises. *)
Theorem C8_estimate_returns (hs as_ : Form.summary) (desc : string) :
  (Str.has_word desc = true ->
   exists lh la, Rates.estimate hs as_ desc = Some (lh, la)) /\
  (Str.has_word desc = false -> Rates.estimate hs as_ desc = None) /\
  (forall hs' as_' desc',
     hs' = hs -> as_' = as_ -> desc' = desc ->
     Rates.estimate hs' as_' desc' = Rates.estimate hs as_ desc).
Proof.
  split; [|split].
  - intros Hw. destruct (dampened_some desc Hw) as [d Hd].
    rewrite (estimate_eq hs as_ desc d Hd). eauto.
  - intros Hw. apply estimate_none. now apply dampened_none.
  - intros hs' as_' desc' -> -> ->. reflexivity.
Qed.

Lemma C8_estimate_returns_witness :
  (exists lh la,
     Rates.estimate Form.default_summary Form.goalless "overcast clouds" = Some (lh, la)) /\
  Rates.estimate Form.default_summary Form.goalless "  " = None.
Proof.
  split.
  - apply (proj1 (C8_estimate_returns Form.default_summary Form.goalless "overcast clouds")).
    reflexivity.
  - apply (proj1 (proj2 (C8_estimate_returns Form.default_summary Form.goalless "  "))).
    reflexivity.
Defined.

(** ** Finite sums *)

Section SumFacts.

Lemma Rsum_nil : Rsum [] = 0.
Proof. reflexivity. Qed.

Lemma Rsum_cons x l : Rsum (x :: l) = x + Rsum l.
Proof. reflexivity. Qed.

Lemma Rsum_app l1 l2 : Rsum (l1 ++ l2) = Rsum l1 + Rsum l2.
Proof.
  induction l1 as [|x l1 IH]; cbn [app].
  - rewrite Rsum_nil. lra.
  - rewrite !Rsum_cons, IH. lra.
Qed.

Lemma sum_n_0 F : sum_n 0 F = 0.
Proof. reflexivity. Qed.

Lemma sum_n_S n F : sum_n (S n) F = sum_n n F + F n.
Proof.
  unfold sum_n. rewrite seq_S, map_app, Rsum_app.
  cbn [map plus]. rewrite Rsum_cons, Rsum_nil. lra.
Qed.

Lemma sum_n_ext n F G :
  (forall i, (i < n)%nat -> F i = G i) -> sum_n n F = sum_n n G.
Proof.
  induction n as [|n IH]; intros H; [reflexivity|].
  rewrite !sum_n_S, IH, (H n) by auto with arith. reflexivity.
Qed.

Lemma sum_n_add n m F :
  sum_n (n + m) F = sum_n n F + sum_n m (fun i => F (n + i)%nat).
Proof.
  induction m as [|m IH].
  - rewrite Nat.add_0_r, sum_n_0. lra.
  - rewrite Nat.add_succ_r, !sum_n_S, IH. lra.
Qed.

Lemma sum_n_plus n F G :
  sum_n n (fun i => F i + G i) = sum_n n F + sum_n n G.
Proof.
  induction n as [|n IH]; [rewrite !sum_n_0; lra|].
  rewrite !sum_n_S, IH. lra.
Qed.

Lemma sum_n_nonneg n F :
  (forall i, (i < n)%nat -> 0 <= F i) -> 0 <= sum_n n F.
Proof.
  induction n as [|n IH]; intros H; [rewrite sum_n_0; lra|].
  rewrite sum_n_S.
  assert (0 <= sum_n n F) by (apply IH; auto with arith).
  assert (0 <= F n) by (apply H; auto with arith). lra.
Qed.

Lemma sum_n_pos n F :
  (0 < n)%nat -> (forall i, (i < n)%nat -> 0 < F i) -> 0 < sum_n n F.
Proof.
  intros Hn H. destruct n as [|n]; [lia|].
  rewrite sum_n_S.
  assert (0 <= sum_n n F).
  { apply sum_n_nonneg. intros i Hi. apply Rlt_le, H. lia. }
  assert (0 < F n) by (apply H; lia). lra.
Qed.

(** A sum over a row-major buffer is a sum over rows of sums over
    columns. *)
Lemma sum_n_flat r c F :
  sum_n (r * c) F = sum_n r (fun h => sum_n c (fun a => F (h * c + a)%nat)).
Proof.
  induction r as [|r IH]; [reflexivity|].
  rewrite Nat.mul_succ_l, sum_n_add, IH, sum_n_S. reflexivity.
Qed.

(** The sum of an indexed map, entry by entry. *)
Lemma Rsum_mapi_from f l : forall i,
  Rsum (Np.mapi_from i f l) = sum_n (length l) (fun j => f (i + j)%nat (nth j l 0)).
Proof.
  induction l as [|x l IH]; intros i; [reflexivity|].
  cbn [Np.mapi_from length]. rewrite Rsum_cons.
  change (S (length l)) with (1 + length l)%nat.
  rewrite sum_n_add, IH.
  rewrite sum_n_S, sum_n_0. cbn [nth]. rewrite Nat.add_0_r.
  rewrite Rplus_0_l. f_equal.
  apply sum_n_ext. intros j _. cbn [plus nth]. now rewrite Nat.add_succ_r.
Qed.

End SumFacts.

(** ** The three raw sums of [outcome_probs] *)

Section AggregateFacts.

Import Np Engine.

Lemma sum_n_zero n F : (forall i, (i < n)%nat -> F i = 0) -> sum_n n F = 0.
Proof.
  induction n as [|n IH]; intros H; [reflexivity|].
  rewrite sum_n_S, IH, (H n) by auto with arith. lra.
Qed.

(** A sum that keeps one index. *)
Lemma sum_n_single n k F :
  sum_n n (fun i => if (i =? k)%nat then F i else 0)
  = if (k <? n)%nat then F k else 0.
Proof.
  induction n as [|n IH]; [reflexivity|].
  rewrite sum_n_S, IH.
  destruct (Nat.eqb_spec n k) as [->|Hne].
  - rewrite Nat.ltb_irrefl.
    replace (k <? S k)%nat with true by (symmetry; apply Nat.ltb_lt; lia). lra.
  - destruct (Nat.ltb_spec k n), (Nat.ltb_spec k (S n)); try lia; lra.
Qed.

(** A sum cut off at [c]. *)
Lemma sum_n_cut r c F :
  sum_n r (fun i => if (i <? c)%nat then F i else 0) = sum_n (Nat.min r c) F.
Proof.
  destruct (Nat.le_gt_cases r c) as [Hle|Hgt].
  - rewrite Nat.min_l by exact Hle.
    apply sum_n_ext. intros i Hi.
    destruct (Nat.ltb_spec i c); [reflexivity | lia].
  - rewrite Nat.min_r by lia.
    replace r with (c + (r - c))%nat at 1 by lia.
    rewrite sum_n_add, (sum_n_zero (r - c)).
    + rewrite Rplus_0_r. apply sum_n_ext. intros i Hi.
      destruct (Nat.ltb_spec i c); [reflexivity | lia].
    + intros i _. destruct (Nat.ltb_spec (c + i) c); [lia | reflexivity].
Qed.

Lemma coords_flat c h a : (a < c)%nat -> coords c (h * c + a) = (h, a).
Proof.
  intros Ha. unfold coords. f_equal.
  - symmetry. apply (Nat.div_unique _ _ _ a); lia.
  - symmetry. apply (Nat.mod_unique _ _ h); lia.
Qed.

(** The sum of a masked copy of a well-formed array is the sum of the
    cells that the mask keeps. *)
Lemma masked_sum (g : ndarray) (f : nat -> R -> R) (keep : nat -> nat -> bool) :
  wf g ->
  (forall h a x, (a < cols g)%nat ->
     f (h * cols g + a)%nat x = if keep h a then x else 0) ->
  Rsum (mapi_from 0 f (data g)) = sum_cells keep g.
Proof.
  intros Hwf Hf. rewrite Rsum_mapi_from, Hwf, sum_n_flat.
  unfold sum_cells. apply sum_n_ext. intros h Hh.
  apply sum_n_ext. intros a Ha.
  cbn [plus]. rewrite Hf by exact Ha. reflexivity.
Qed.

Lemma raw_home_below g : wf g -> raw_home g = below_diagonal g.
Proof.
  intros Hwf. unfold raw_home, np_sum, np_tril, below_diagonal. cbn [data].
  apply masked_sum; [exact Hwf|]. intros h a x Ha.
  rewrite coords_flat by exact Ha.
  destruct (Z.leb_spec (Z.of_nat a) (Z.of_nat h + -1)), (Nat.ltb_spec a h);
    try lia; reflexivity.
Qed.

Lemma raw_away_above g : wf g -> raw_away g = above_diagonal g.
Proof.
  intros Hwf. unfold raw_away, np_sum, np_triu, above_diagonal. cbn [data].
  apply masked_sum; [exact Hwf|]. intros h a x Ha.
  rewrite coords_flat by exact Ha.
  destruct (Z.leb_spec (Z.of_nat h + 1) (Z.of_nat a)), (Nat.ltb_spec h a);
    try lia; reflexivity.
Qed.

Lemma raw_draw_diagonal g : raw_draw g = on_diagonal g.
Proof.
  unfold raw_draw, np_trace, on_diagonal, sum_cells.
  rewrite <- sum_n_cut. apply sum_n_ext. intros h _.
  now rewrite (sum_n_single (cols g) h (fun a => cell g h a)).
Qed.

(** The three raw sums partition the cells of the array. *)
Lemma total_mass_all g : total_mass g = sum_cells (fun _ _ => true) g.
Proof.
  unfold total_mass, below_diagonal, on_diagonal, above_diagonal, sum_cells.
  rewrite <- !sum_n_plus. apply sum_n_ext. intros h _.
  rewrite <- !sum_n_plus. apply sum_n_ext. intros a _.
  destruct (Nat.ltb_spec a h), (Nat.eqb_spec a h), (Nat.ltb_spec h a); try lia; lra.
Qed.

Lemma np_div_finite x s : s <> 0 -> np_div x s = Finite (x / s).
Proof. intros H. unfold np_div. destruct (Req_dec_T s 0); [contradiction | reflexivity]. Qed.

Lemma np_div_zero x : ~ is_finite (np_div x 0).
Proof.
  unfold np_div. destruct (Req_dec_T 0 0) as [_|H]; [|now elim H].
  destruct (Req_dec_T x 0); [|destruct (Rlt_dec 0 x)]; cbn; tauto.
Qed.

(** [outcome_probs] on a well-formed array, in terms of the sums over the
    three regions. *)
Lemma outcome_probs_regions g :
  wf g ->
  outcome_probs g =
  (np_div (below_diagonal g) (total_mass g),
   np_div (on_diagonal g) (total_mass g),
   np_div (above_diagonal g) (total_mass g)).
Proof.
  intros Hwf. unfold outcome_probs, total_mass.
  now rewrite raw_home_below, raw_away_above, raw_draw_diagonal.
Qed.

End AggregateFacts.

(** ** The scan of [np.argmax] *)

Section ArgmaxFacts.

Import Np Engine.

(** The scan over [t], started after the prefix [pre] with the best entry
    of [pre] at its first occurrence [best_i], ends on the first
    occurrence of the maximum of [pre ++ t]. *)
Lemma argmax_from_spec t : forall pre best_i,
  (best_i < length pre)%nat ->
  (forall j, (j < length pre)%nat -> nth j pre 0 <= nth best_i pre 0) ->
  (forall j, (j < best_i)%nat -> nth j pre 0 < nth best_i pre 0) ->
  let r := argmax_from best_i (nth best_i pre 0) (length pre) t in
  (r < length (pre ++ t))%nat /\
  (forall j, (j < length (pre ++ t))%nat -> nth j (pre ++ t) 0 <= nth r (pre ++ t) 0) /\
  (forall j, (j < r)%nat -> nth j (pre ++ t) 0 < nth r (pre ++ t) 0).
Proof.
  induction t as [|x t IH]; intros pre best_i Hb Hmax Hfirst; cbn [argmax_from].
  - rewrite app_nil_r. auto.
  - assert (Hlen : length (pre ++ [x]) = S (length pre))
      by (rewrite length_app; cbn [length]; lia).
    assert (Hx : nth (length pre) (pre ++ [x]) 0 = x)
      by (rewrite app_nth2, Nat.sub_diag by lia; reflexivity).
    replace (pre ++ x :: t) with ((pre ++ [x]) ++ t)
      by (rewrite <- app_assoc; reflexivity).
    destruct (Rlt_dec (nth best_i pre 0) x) as [Hlt|Hge].
    + pose proof (IH (pre ++ [x]) (length pre)) as IH'.
      rewrite Hx, Hlen in IH'. apply IH'.
      * lia.
      * intros j Hj.
        destruct (Nat.eq_dec j (length pre)) as [->|Hne]; [rewrite Hx; lra|].
        rewrite app_nth1 by lia.
        specialize (Hmax j ltac:(lia)). lra.
      * intros j Hj. rewrite app_nth1 by lia.
        specialize (Hmax j Hj). lra.
    + pose proof (IH (pre ++ [x]) best_i) as IH'.
      rewrite (app_nth1 pre [x] 0 Hb), Hlen in IH'. apply IH'.
      * lia.
      * intros j Hj.
        destruct (Nat.eq_dec j (length pre)) as [->|Hne]; [rewrite Hx; lra|].
        rewrite app_nth1 by lia. apply Hmax. lia.
      * intros j Hj. rewrite !app_nth1 by lia. now apply Hfirst.
Qed.

(** [np.argmax] on a non-empty buffer. *)
Lemma np_argmax_spec g :
  data g <> [] ->
  exists r, np_argmax g = Some r /\
    (r < length (data g))%nat /\
    (forall j, (j < length (data g))%nat -> nth j (data g) 0 <= nth r (data g) 0) /\
    (forall j, (j < r)%nat -> nth j (data g) 0 < nth r (data g) 0).
Proof.
  unfold np_argmax. destruct (data g) as [|x t]; [congruence|]. intros _.
  eexists. split; [reflexivity|].
  apply (argmax_from_spec t [x] 0%nat).
  - cbn [length]. lia.
  - intros j Hj. cbn [length] in Hj. replace j with 0%nat by lia. cbn [nth]. lra.
  - intros j Hj. lia.
Qed.

(** Row-major order of flat indices is the lexicographic order of the
    coordinates. *)
Lemma flat_le_lex c h a h' a' :
  (a < c)%nat -> (a' < c)%nat -> (h * c + a <= h' * c + a')%nat ->
  (h < h' \/ (h = h' /\ a <= a'))%nat.
Proof.
  intros Ha Ha' Hle.
  destruct (Nat.lt_trichotomy h h') as [Hlt|[->|Hgt]]; [now left | right; lia |].
  exfalso. assert (S h' * c <= h * c)%nat by (apply Nat.mul_le_mono_r; lia). lia.
Qed.

(** The scoreline of a non-empty well-formed grid. *)
Lemma most_likely_spec g :
  wf g -> (0 < rows g)%nat -> (0 < cols g)%nat ->
  exists hi ai,
    most_likely_scoreline g = Some (hi, ai) /\
    (hi < rows g)%nat /\ (ai < cols g)%nat /\
    (forall h a, (h < rows g)%nat -> (a < cols g)%nat -> cell g h a <= cell g hi ai) /\
    (forall h a, (h < rows g)%nat -> (a < cols g)%nat ->
       cell g h a = cell g hi ai -> (hi < h \/ (hi = h /\ ai <= a))%nat).
Proof.
  intros Hwf Hr Hc. red in Hwf.
  assert (Hne : data g <> []).
  { intros E. rewrite E in Hwf. cbn [length] in Hwf. nia. }
  destruct (np_argmax_spec g Hne) as (r & Har & Hlt & Hmax & Hfirst).
  rewrite Hwf in Hlt, Hmax.
  assert (Hflat : forall h a, (h < rows g)%nat -> (a < cols g)%nat ->
                   (h * cols g + a < rows g * cols g)%nat).
  { intros h a Hh Ha.
    assert (S h * cols g <= rows g * cols g)%nat by (apply Nat.mul_le_mono_r; lia).
    lia. }
  assert (Hsplit : r = ((r / cols g) * cols g + r mod cols g)%nat).
  { rewrite Nat.mul_comm. apply Nat.div_mod_eq. }
  assert (Hai : (r mod cols g < cols g)%nat) by (apply Nat.mod_upper_bound; lia).
  assert (Hhi : (r / cols g < rows g)%nat).
  { apply Nat.Div0.div_lt_upper_bound. lia. }
  exists (r / cols g)%nat, (r mod cols g)%nat.
  unfold most_likely_scoreline, np_unravel_index, coords. rewrite Har.
  fold (rows g) (cols g).
  replace (r <? rows g * cols g)%nat with true by (symmetry; apply Nat.ltb_lt; lia).
  unfold cell. rewrite <- Hsplit.
  repeat split; try assumption.
  - intros h a Hh Ha. apply Hmax. now apply Hflat.
  - intros h a Hh Ha Heq.
    apply (flat_le_lex (cols g)); try assumption.
    rewrite <- Hsplit.
    destruct (Nat.le_gt_cases r (h * cols g + a)) as [Hle|Hgt]; [exact Hle|].
    specialize (Hfirst _ Hgt). lra.
Qed.

End ArgmaxFacts.

(** ** The two sample grids *)

Section SampleGrids.

Import Np Engine.

Ltac eval_cells :=
  unfold total_mass, below_diagonal, on_diagonal, above_diagonal, sum_cells,
    sum_n, cell;
  cbn [rows cols shape fst snd data seq map Rsum fold_right nth
       Nat.ltb Nat.leb Nat.eqb Nat.mul Nat.add tie_grid zero_grid np_zeros repeat].

Lemma tie_grid_wf : wf tie_grid.
Proof. reflexivity. Qed.

Lemma tie_grid_regions :
  below_diagonal tie_grid = 0.2 /\ on_diagonal tie_grid = 0.6 /\
  above_diagonal tie_grid = 0.2 /\ total_mass tie_grid = 1.
Proof. repeat split; eval_cells; lra. Qed.

Lemma zero_grid_wf : wf zero_grid.
Proof. reflexivity. Qed.

Lemma zero_grid_regions :
  below_diagonal zero_grid = 0 /\ on_diagonal zero_grid = 0 /\
  above_diagonal zero_grid = 0 /\ total_mass zero_grid = 0.
Proof. repeat split; eval_cells; lra. Qed.

Lemma np_div_0_0 : np_div 0 0 = NaN.
Proof.
  unfold np_div. destruct (Req_dec_T 0 0) as [_|H]; [reflexivity | now elim H].
Qed.

End SampleGrids.

(** C5: for every grid (a well-formed two-dimensional array) with nonzero
    total mass, [outcome_probs] returns the sum of the cells below the main
    diagonal (home goals > away goals), the sum of the diagonal cells and
    the sum of the cells above the diagonal, each divided by the total of
    the three, and the three results sum to 1. *)
Theorem C5_outcome_probs_normalised (g : Np.ndarray) :
  Np.wf g ->
  Engine.total_mass g <> 0 ->
  exists ph pd pa,
    Engine.outcome_probs g = (Np.Finite ph, Np.Finite pd, Np.Finite pa) /\
    ph = Engine.below_diagonal g / Engine.total_mass g /\
    pd = Engine.on_diagonal g / Engine.total_mass g /\
    pa = Engine.above_diagonal g / Engine.total_mass g /\
    ph + pd + pa = 1.
Proof.
  intros Hwf Hs. eexists _, _, _.
  rewrite (outcome_probs_regions g Hwf), !np_div_finite by exact Hs.
  split; [reflexivity|]. repeat split.
  unfold Engine.total_mass in *. field. exact Hs.
Qed.

Lemma C5_outcome_probs_normalised_witness :
  exists ph pd pa,
    Engine.outcome_probs Engine.tie_grid = (Np.Finite ph, Np.Finite pd, Np.Finite pa) /\
    ph = Engine.below_diagonal Engine.tie_grid / Engine.total_mass Engine.tie_grid /\
    pd = Engine.on_diagonal Engine.tie_grid / Engine.total_mass Engine.tie_grid /\
    pa = Engine.above_diagonal Engine.tie_grid / Engine.total_mass Engine.tie_grid /\
    ph + pd + pa = 1.
Proof.
  apply (C5_outcome_probs_normalised Engine.tie_grid).
  - reflexivity.
  - destruct tie_grid_regions as (_ & _ & _ & ->). lra.
Defined.

(** C6: for every grid with at least one row and one column,
    [most_likely_scoreline] returns the coordinates of a cell that attains
    the maximum, and every cell that attains it comes no earlier in
    row-major order (home goals ascending, then away goals ascending); in
    particular, when the maximum is attained at (0,0) and at (1,1) it
    returns (0,0). *)
Theorem C6_most_likely_first_maximum (g : Np.ndarray) :
  Np.wf g -> (0 < Np.rows g)%nat -> (0 < Np.cols g)%nat ->
  exists hi ai,
    Engine.most_likely_scoreline g = Some (hi, ai) /\
    (hi < Np.rows g)%nat /\ (ai < Np.cols g)%nat /\
    (forall h a, (h < Np.rows g)%nat -> (a < Np.cols g)%nat ->
       Np.cell g h a <= Np.cell g hi ai) /\
    (forall h a, (h < Np.rows g)%nat -> (a < Np.cols g)%nat ->
       Np.cell g h a = Np.cell g hi ai -> (hi < h \/ (hi = h /\ ai <= a))%nat) /\
    ((1 < Np.rows g)%nat -> (1 < Np.cols g)%nat ->
     (forall h a, (h < Np.rows g)%nat -> (a < Np.cols g)%nat ->
        Np.cell g h a <= Np.cell g 0 0) ->
     Np.cell g 1 1 = Np.cell g 0 0 ->
     (hi, ai) = (0%nat, 0%nat)).
Proof.
  intros Hwf Hr Hc.
  destruct (most_likely_spec g Hwf Hr Hc) as (hi & ai & Hm & Hhi & Hai & Hmax & Hfirst).
  exists hi, ai. repeat split; try assumption.
  intros Hr1 Hc1 Htop Htie.
  assert (E : Np.cell g 0 0 = Np.cell g hi ai).
  { apply Rle_antisym; [apply Hmax | apply Htop]; assumption. }
  destruct (Hfirst 0%nat 0%nat Hr Hc E) as [Hlt|[-> Hle]]; [lia|].
  f_equal. lia.
Qed.

Lemma C6_most_likely_first_maximum_witness :
  Engine.most_likely_scoreline Engine.tie_grid = Some (0%nat, 0%nat).
Proof.
  destruct (C6_most_likely_first_maximum Engine.tie_grid)
    as (hi & ai & Hm & _ & _ & _ & _ & Htie).
  - reflexivity.
  - cbn. lia.
  - cbn. lia.
  - rewrite Hm. f_equal. apply Htie.
    + cbn. lia.
    + cbn. lia.
    + intros h a Hh Ha. cbn in Hh, Ha.
      destruct h as [|[|h]]; [| |lia]; (destruct a as [|[|a]]; [| |lia]);
        cbv [Np.cell Engine.tie_grid Np.cols Np.data Np.shape snd nth Nat.mul Nat.add];
        lra.
    + reflexivity.
Defined.

(** C7, as stated, fails: [outcome_probs] has no guard.  On a grid whose
    total mass is zero the three divisions by zero are carried out; numpy
    does not raise, and the results are NaN. *)
Lemma C7_counterexample :
  Np.wf Engine.zero_grid /\
  Engine.total_mass Engine.zero_grid = 0 /\
  Engine.outcome_probs Engine.zero_grid = (Np.NaN, Np.NaN, Np.NaN).
Proof.
  destruct zero_grid_regions as (Hb & Hd & Ha & Ht).
  split; [reflexivity|]. split; [exact Ht|].
  rewrite (outcome_probs_regions _ zero_grid_wf), Hb, Hd, Ha, Ht, np_div_0_0.
  reflexivity.
Qed.

(** C7, amended: [outcome_probs] contains no guard against a zero total
    mass and never raises.  For every grid with nonzero total mass it
    returns three finite probabilities; when the total mass is exactly zero
    the unguarded divisions return values that are not finite (NaN or an
    infinity). *)
Theorem C7_outcome_probs_unguarded (g : Np.ndarray) :
  Np.wf g ->
  (Engine.total_mass g <> 0 ->
   exists ph pd pa,
     Engine.outcome_probs g = (Np.Finite ph, Np.Finite pd, Np.Finite pa)) /\
  (Engine.total_mass g = 0 ->
   exists ph pd pa,
     Engine.outcome_probs g = (ph, pd, pa) /\
     ~ Np.is_finite ph /\ ~ Np.is_finite pd /\ ~ Np.is_finite pa).
Proof.
  intros Hwf. rewrite (outcome_probs_regions g Hwf). split.
  - intros Hs. rewrite !np_div_finite by exact Hs. eauto.
  - intros ->. eexists _, _, _. split; [reflexivity|].
    repeat split; apply np_div_zero.
Qed.

Lemma C7_outcome_probs_unguarded_witness :
  (exists ph pd pa,
     Engine.outcome_probs Engine.tie_grid = (Np.Finite ph, Np.Finite pd, Np.Finite pa)) /\
  (exists ph pd pa,
     Engine.outcome_probs Engine.zero_grid = (ph, pd, pa) /\
     ~ Np.is_finite ph /\ ~ Np.is_finite pd /\ ~ Np.is_finite pa).
Proof.
  split.
  - apply (proj1 (C7_outcome_probs_unguarded Engine.tie_grid tie_grid_wf)).
    destruct tie_grid_regions as (_ & _ & _ & ->). lra.
  - apply (proj2 (C7_outcome_probs_unguarded Engine.zero_grid zero_grid_wf)).
    apply zero_grid_regions.
Defined.

(** ** Filling an array cell by cell *)

Section FillFacts.

Import Np Engine.

Lemma length_upd i v l : length (upd i v l) = length l.
Proof.
  revert i. induction l as [|x l IH]; intros [|i]; cbn [upd length]; auto.
Qed.

Lemma nth_upd_eq i v l : (i < length l)%nat -> nth i (upd i v l) 0 = v.
Proof.
  revert i. induction l as [|x l IH]; intros [|i] Hi; cbn [length] in Hi;
    cbn [upd nth]; try lia; auto with arith.
Qed.

Lemma nth_upd_ne i j v l : i <> j -> nth j (upd i v l) 0 = nth j l 0.
Proof.
  revert i j. induction l as [|x l IH]; intros [|i] [|j] Hij; cbn [upd nth];
    try reflexivity; try congruence.
  apply IH. congruence.
Qed.

Lemma flat_in_range r c h a :
  (h < r)%nat -> (a < c)%nat -> (h * c + a < r * c)%nat.
Proof.
  intros Hh Ha.
  assert (S h * c <= r * c)%nat by (apply Nat.mul_le_mono_r; lia). lia.
Qed.

Lemma flat_inj c h a h' a' :
  (a < c)%nat -> (a' < c)%nat -> (h * c + a = h' * c + a')%nat -> h = h' /\ a = a'.
Proof.
  intros Ha Ha' E.
  destruct (flat_le_lex c h a h' a' Ha Ha') as [?|[? ?]]; [lia| |];
  destruct (flat_le_lex c h' a' h a Ha' Ha) as [?|[? ?]]; lia.
Qed.

(** An assignment in range succeeds, keeps the shape and changes the one
    cell. *)
Lemma setitem_spec g h a v :
  wf g -> (h < rows g)%nat -> (a < cols g)%nat ->
  exists g',
    setitem g h a v = Some g' /\ shape g' = shape g /\ wf g' /\
    cell g' h a = v /\
    (forall h' a', (a' < cols g)%nat -> (h', a') <> (h, a) ->
       cell g' h' a' = cell g h' a').
Proof.
  intros Hwf Hh Ha. unfold setitem.
  replace ((h <? rows g) && (a <? cols g))%nat with true.
  2:{ symmetry. apply andb_true_iff. split; apply Nat.ltb_lt; assumption. }
  eexists. split; [reflexivity|].
  unfold wf, cell, rows, cols in *. cbn [shape data].
  repeat split.
  - now rewrite length_upd.
  - apply nth_upd_eq. rewrite Hwf. now apply flat_in_range.
  - intros h' a' Ha' Hne. apply nth_upd_ne. intros E.
    apply flat_inj in E; try assumption. destruct E; congruence.
Qed.

Variable n : nat.
Variable F : nat -> nat -> R.

Local Abbreviation filled := (filled_upto n F).

Lemma filled_next_row g h : filled g h n -> filled g (S h) 0.
Proof.
  intros (Hs & Hwf & Hc). repeat split; try assumption.
  intros h' a' Hh' Ha' Hlex. apply Hc; try assumption. lia.
Qed.

(** The inner loop, over the columns of row [h]. *)
Lemma inner_loop h : (h < n)%nat -> forall len a0 g,
  (a0 + len <= n)%nat -> filled g h a0 ->
  exists g',
    for_each (seq a0 len) (fun a g => setitem g h a (F h a)) g = Some g' /\
    filled g' h (a0 + len).
Proof.
  intros Hh. induction len as [|len IH]; intros a0 g Hle Hg.
  - exists g. rewrite Nat.add_0_r. split; [reflexivity | assumption].
  - destruct Hg as (Hs & Hwf & Hc).
    assert (Hr : rows g = n) by (unfold rows; now rewrite Hs).
    assert (Hk : cols g = n) by (unfold cols; now rewrite Hs).
    destruct (setitem_spec g h a0 (F h a0) Hwf) as (g1 & E1 & Hs1 & Hwf1 & Hset & Hkeep);
      [lia | lia |].
    cbn [seq for_each]. rewrite E1.
    replace (a0 + S len)%nat with (S a0 + len)%nat by lia.
    apply IH; [lia|].
    repeat split; [congruence | assumption |].
    intros h' a' Hh' Ha' Hlex.
    destruct (Nat.eq_dec h' h) as [->|Hne].
    + destruct (Nat.eq_dec a' a0) as [->|Hna]; [exact Hset|].
      rewrite Hkeep by (try lia; congruence). apply Hc; lia.
    + rewrite Hkeep by (try lia; congruence). apply Hc; lia.
Qed.

(** The outer loop, over the rows. *)
Lemma outer_loop : forall len h0 g,
  (h0 + len <= n)%nat -> filled g h0 0 ->
  exists g',
    for_each (seq h0 len)
      (fun h g => for_each (range n) (fun a g => setitem g h a (F h a)) g) g
    = Some g' /\
    filled g' (h0 + len) 0.
Proof.
  induction len as [|len IH]; intros h0 g Hle Hg.
  - exists g. rewrite Nat.add_0_r. split; [reflexivity | assumption].
  - destruct (inner_loop h0 ltac:(lia) n 0%nat g ltac:(lia) Hg) as (g1 & E1 & Hg1).
    cbn [seq for_each]. unfold range at 1. rewrite E1.
    replace (h0 + S len)%nat with (S h0 + len)%nat by lia.
    apply IH; [lia|]. apply filled_next_row. exact Hg1.
Qed.

Lemma np_zeros_wf r c : wf (np_zeros r c).
Proof. unfold wf, np_zeros, rows, cols. cbn [data shape fst snd]. apply repeat_length. Qed.

(** The two nested loops over a fresh square array fill every cell. *)
Lemma fill_loops :
  exists g,
    for_each (range n)
      (fun h g => for_each (range n) (fun a g => setitem g h a (F h a)) g)
      (np_zeros n n)
    = Some g /\
    shape g = (n, n) /\ wf g /\
    forall h a, (h < n)%nat -> (a < n)%nat -> cell g h a = F h a.
Proof.
  destruct (outer_loop n 0%nat (np_zeros n n)) as (g & E & Hs & Hwf & Hc).
  - lia.
  - repeat split; [apply np_zeros_wf|]. intros h' a' _ _ Hlex. lia.
  - exists g. repeat split; try assumption.
    intros h a Hh Ha. apply Hc; try assumption. lia.
Qed.

End FillFacts.

Section GridFacts.

Import Np Engine.

(** [score_matrix] returns a square grid whose cells are the products of
    the two Poisson probabilities. *)
Lemma score_matrix_spec lh la max_goals :
  exists g,
    score_matrix lh la max_goals = Some g /\
    shape g = ((max_goals + 1)%nat, (max_goals + 1)%nat) /\ wf g /\
    forall h a, (h <= max_goals)%nat -> (a <= max_goals)%nat ->
      cell g h a = poisson_prob h lh * poisson_prob a la.
Proof.
  destruct (fill_loops (max_goals + 1)
              (fun h a => poisson_prob h lh * poisson_prob a la))
    as (g & E & Hs & Hwf & Hc).
  exists g. repeat split; try assumption.
  intros h a Hh Ha. apply Hc; lia.
Qed.

Lemma poisson_prob_pos k lam : 0 < lam -> 0 < poisson_prob k lam.
Proof.
  intros Hl. unfold poisson_prob.
  apply Rdiv_lt_0_compat; [|apply INR_fact_lt_0].
  apply Rmult_lt_0_compat; [apply exp_pos | now apply pow_lt].
Qed.

End GridFacts.

(** ** Bounds on the exponential *)

Section ExpFacts.

(** The alternating series of [exp (- x)]. *)
Lemma exp_neg_series x :
  Un_cv (fun N => sum_f_R0 (tg_alt (fun i => x ^ i / INR (fact i))) N) (exp (- x)).
Proof.
  unfold exp. destruct (exist_exp (- x)) as [l Hl]. cbn [proj1_sig].
  intros eps Heps. destruct (Hl eps Heps) as [N HN].
  exists N. intros k Hk.
  rewrite (sum_eq _ (fun i => / INR (fact i) * (- x) ^ i)); [now apply HN|].
  intros i _. unfold tg_alt.
  replace (- x) with (-1 * x) by lra.
  rewrite Rpow_mult_distr. unfold Rdiv. ring.
Qed.

(** For [x] in [0, 1] the partial sums of the series enclose [exp (- x)]. *)
Lemma exp_neg_alt x N :
  0 <= x <= 1 ->
  sum_f_R0 (tg_alt (fun i => x ^ i / INR (fact i))) (S (2 * N)) <= exp (- x)
  <= sum_f_R0 (tg_alt (fun i => x ^ i / INR (fact i))) (2 * N).
Proof.
  intros Hx. apply alternated_series_ineq.
  - intros k. cbn [pow].
    assert (Hp : 0 <= x ^ k) by (apply pow_le; lra).
    assert (Hf : 0 < INR (fact k)) by apply INR_fact_lt_0.
    assert (Hf' : 0 < INR (fact (S k))) by apply INR_fact_lt_0.
    assert (Hle : INR (fact k) <= INR (fact (S k))).
    { apply le_INR. cbn [fact]. lia. }
    apply Rle_trans with (x ^ k / INR (fact (S k))).
    + apply Rmult_le_compat_r; [left; now apply Rinv_0_lt_compat|]. nra.
    + apply Rmult_le_compat_l; [exact Hp|]. now apply Rinv_le_contravar.
  - apply cv_speed_pow_fact.
  - apply exp_neg_series.
Qed.

Lemma exp_pow_nat x k : exp (INR k * x) = exp x ^ k.
Proof.
  induction k as [|k IH].
  - cbn [INR pow]. rewrite Rmult_0_l. apply exp_0.
  - rewrite S_INR, Rmult_plus_distr_r, Rmult_1_l, exp_plus, IH. cbn [pow]. ring.
Qed.

Lemma exp_quarter : 0.7788 <= exp (- (1/4)) <= 0.77881.
Proof.
  pose proof (exp_neg_alt (1/4) 2 ltac:(lra)) as H.
  change (2 * 2)%nat with 4%nat in H.
  unfold tg_alt in H. cbn [sum_f_R0 pow] in H.
  rewrite !INR_IZR_INZ in H.
  cbn -[IZR Rplus Rmult Rdiv Ropp Rle] in H.
  lra.
Qed.

(** [1.5 * exp (-2.5)], the cell (1,1) of the grid for the rates 1.5 and
    1.0, to four decimals. *)
Lemma poisson_1_1_bounds :
  0.1231 < Engine.poisson_prob 1 1.5 * Engine.poisson_prob 1 1.0 < 0.1232.
Proof.
  unfold Engine.poisson_prob.
  replace (Ropp 1.5) with (INR 6 * - (1/4)) by (cbn [INR]; lra).
  replace (Ropp 1.0) with (INR 4 * - (1/4)) by (cbn [INR]; lra).
  rewrite !exp_pow_nat.
  pose proof exp_quarter as HE.
  set (E := exp (- (1/4))) in *. clearbody E.
  cbn [fact INR Nat.mul Nat.add].
  replace (E ^ 6 * 1.5 ^ 1 / 1 * (E ^ 4 * 1.0 ^ 1 / 1))
    with (1.5 * E ^ 10) by lra.
  assert (Hlo : 0.7788 ^ 10 <= E ^ 10) by (apply pow_incr; lra).
  assert (Hhi : E ^ 10 <= 0.77881 ^ 10) by (apply pow_incr; lra).
  lra.
Qed.

End ExpFacts.

(** ** The grid of two positive rates *)

Section PositiveGrid.

Import Np Engine.

Lemma sum_n_le n F G :
  (forall i, (i < n)%nat -> F i <= G i) -> sum_n n F <= sum_n n G.
Proof.
  induction n as [|n IH]; intros H; [rewrite !sum_n_0; lra|].
  rewrite !sum_n_S.
  assert (sum_n n F <= sum_n n G) by (apply IH; auto with arith).
  assert (F n <= G n) by (apply H; auto with arith). lra.
Qed.

Lemma sum_n_lt n k F G :
  (k < n)%nat -> F k < G k ->
  (forall i, (i < n)%nat -> F i <= G i) -> sum_n n F < sum_n n G.
Proof.
  intros Hk Hlt Hle.
  set (m := (n - S k)%nat).
  replace n with (S k + m)%nat by (unfold m; lia).
  rewrite (sum_n_add (S k) m F), (sum_n_add (S k) m G), !sum_n_S.
  assert (sum_n k F <= sum_n k G) by (apply sum_n_le; intros; apply Hle; lia).
  assert (sum_n m (fun i => F (S k + i)%nat) <= sum_n m (fun i => G (S k + i)%nat))
    by (apply sum_n_le; intros; apply Hle; unfold m in *; lia).
  lra.
Qed.

Lemma sum_n_swap n m (F : nat -> nat -> R) :
  sum_n n (fun i => sum_n m (fun j => F i j))
  = sum_n m (fun j => sum_n n (fun i => F i j)).
Proof.
  induction n as [|n IH].
  - rewrite sum_n_0. symmetry. apply sum_n_zero. intros j _. apply sum_n_0.
  - rewrite sum_n_S, IH, <- sum_n_plus.
    apply sum_n_ext. intros j _. now rewrite sum_n_S.
Qed.

(** The sum above the diagonal is the sum below it of the transposed
    cells. *)
Lemma above_diagonal_transposed g :
  rows g = cols g ->
  above_diagonal g
  = sum_n (rows g) (fun h => sum_n (cols g) (fun a => if (a <? h)%nat then cell g a h else 0)).
Proof.
  intros Hsq. unfold above_diagonal, sum_cells.
  rewrite sum_n_swap, Hsq. reflexivity.
Qed.

Lemma pow_lt_strict x y d : 0 < x < y -> (0 < d)%nat -> x ^ d < y ^ d.
Proof.
  intros Hxy Hd. induction d as [|d IH]; [lia|].
  destruct d as [|d]; [cbn [pow]; lra|].
  specialize (IH ltac:(lia)).
  assert (0 < x ^ S d) by (apply pow_lt; lra).
  change (x * x ^ S d < y * y ^ S d). nra.
Qed.

(** With the larger rate at home, a scoreline won by the home side is
    more likely than its mirror image. *)
Lemma mirror_lt lh la h a :
  0 < la < lh -> (a < h)%nat ->
  poisson_prob a lh * poisson_prob h la < poisson_prob h lh * poisson_prob a la.
Proof.
  intros Hl Hah. unfold poisson_prob.
  replace h with (a + (h - a))%nat by lia.
  set (d := (h - a)%nat). assert (Hd : (0 < d)%nat) by (unfold d; lia).
  rewrite !pow_add.
  pose proof (pow_lt_strict la lh d Hl Hd) as Hpow.
  pose proof (exp_pos (- lh)) as E1. pose proof (exp_pos (- la)) as E2.
  assert (P1 : 0 < lh ^ a) by (apply pow_lt; lra).
  assert (P2 : 0 < la ^ a) by (apply pow_lt; lra).
  pose proof (Rinv_0_lt_compat _ (INR_fact_lt_0 a)) as F1.
  pose proof (Rinv_0_lt_compat _ (INR_fact_lt_0 (a + d))) as F2.
  unfold Rdiv.
  set (K := exp (- lh) * exp (- la) * lh ^ a * la ^ a
            * / INR (fact a) * / INR (fact (a + d))).
  assert (HK : 0 < K) by (unfold K; repeat apply Rmult_lt_0_compat; assumption).
  replace (exp (- lh) * lh ^ a * / INR (fact a)
           * (exp (- la) * (la ^ a * la ^ d) * / INR (fact (a + d))))
    with (K * la ^ d) by (unfold K; ring).
  replace (exp (- lh) * (lh ^ a * lh ^ d) * / INR (fact (a + d))
           * (exp (- la) * la ^ a * / INR (fact a)))
    with (K * lh ^ d) by (unfold K; ring).
  now apply Rmult_lt_compat_l.
Qed.

Variables lh la : R.
Variable max_goals : nat.
Variable g : ndarray.

Hypothesis Hlh : 0 < lh.
Hypothesis Hla : 0 < la.
Hypothesis Hg : score_matrix lh la max_goals = Some g.

Lemma grid_of_rates :
  shape g = ((max_goals + 1)%nat, (max_goals + 1)%nat) /\ wf g /\
  forall h a, (h <= max_goals)%nat -> (a <= max_goals)%nat ->
    cell g h a = poisson_prob h lh * poisson_prob a la.
Proof.
  destruct (score_matrix_spec lh la max_goals) as (g' & E & Hs & Hwf & Hc).
  rewrite Hg in E. injection E as <-. auto.
Qed.

Lemma grid_rows : rows g = (max_goals + 1)%nat.
Proof. unfold rows. now rewrite (proj1 grid_of_rates). Qed.

Lemma grid_cols : cols g = (max_goals + 1)%nat.
Proof. unfold cols. now rewrite (proj1 grid_of_rates). Qed.

Lemma grid_cell_pos h a :
  (h <= max_goals)%nat -> (a <= max_goals)%nat -> 0 < cell g h a.
Proof.
  intros Hh Ha. destruct grid_of_rates as (_ & _ & Hc). rewrite Hc by assumption.
  apply Rmult_lt_0_compat; now apply poisson_prob_pos.
Qed.

Lemma grid_total_pos : 0 < total_mass g.
Proof.
  rewrite total_mass_all. unfold sum_cells. rewrite grid_rows, grid_cols.
  apply sum_n_pos; [lia|]. intros h Hh.
  apply sum_n_pos; [lia|]. intros a Ha.
  apply grid_cell_pos; lia.
Qed.

(** The denominator [s] of [outcome_probs], as the code computes it. *)
Lemma grid_denominator_pos : 0 < raw_home g + raw_draw g + raw_away g.
Proof.
  destruct grid_of_rates as (_ & Hwf & _).
  rewrite raw_home_below, raw_draw_diagonal, raw_away_above by exact Hwf.
  apply grid_total_pos.
Qed.

(** The side with the larger rate is the likelier winner. *)
Lemma home_favoured :
  la < lh -> (0 < max_goals)%nat -> above_diagonal g < below_diagonal g.
Proof.
  intros Hlt Hmg. destruct grid_of_rates as (_ & _ & Hc).
  rewrite above_diagonal_transposed by (now rewrite grid_rows, grid_cols).
  unfold below_diagonal, sum_cells. rewrite grid_rows, grid_cols.
  assert (Hcell : forall h a, (h < max_goals + 1)%nat -> (a < max_goals + 1)%nat ->
            (if (a <? h)%nat then cell g a h else 0)
            <= (if (a <? h)%nat then cell g h a else 0)).
  { intros h a Hh Ha. destruct (Nat.ltb_spec a h); [|lra].
    rewrite !Hc by lia. left. apply mirror_lt; [lra | assumption]. }
  apply (sum_n_lt _ 1%nat); [lia | |].
  - apply (sum_n_lt _ 0%nat); [lia | |].
    + cbn [Nat.ltb Nat.leb]. rewrite !Hc by lia. apply mirror_lt; [lra | lia].
    + intros a Ha. apply Hcell; lia.
  - intros h Hh. apply sum_n_le. intros a Ha. now apply Hcell.
Qed.

End PositiveGrid.

(** ** The pipeline *)

Section PipelineFacts.

Import Np Engine.

(** The rates of the scenario with goals (2.0, 1.0) at home and
    (1.0, 1.5) away, in clear weather. *)
Lemma scenario_rates hs as_ :
  Form.gf hs = 2.0 -> Form.ga hs = 1.0 -> Form.gf as_ = 1.0 -> Form.ga as_ = 1.5 ->
  Rates.estimate hs as_ "clear" = Some (2.044, 1.0).
Proof.
  intros H1 H2 H3 H4. rewrite estimate_clear. unfold Rates.base_rates.
  cbn [fst snd]. rewrite H1, H2, H3, H4.
  f_equal. f_equal; unfold Rmax, Rmin; repeat destruct (Rle_dec _ _); lra.
Qed.

(** The pipeline returns whenever the estimator does, with finite
    probabilities and a scoreline of positive probability. *)
Lemma predict_returns hs as_ desc lh la :
  Rates.estimate hs as_ desc = Some (lh, la) ->
  exists g hi ai,
    score_matrix lh la 6 = Some g /\
    most_likely_scoreline g = Some (hi, ai) /\
    0 < cell g hi ai /\
    predict hs as_ desc =
    Some {| Engine.lh := lh; Engine.la := la;
            probs := (Finite (below_diagonal g / total_mass g),
                      Finite (on_diagonal g / total_mass g),
                      Finite (above_diagonal g / total_mass g));
            scoreline := (hi, ai) |}.
Proof.
  intros He.
  destruct (estimate_bounds hs as_ desc lh la He) as [Hh Ha].
  destruct (score_matrix_spec lh la 6) as (g & Hg & Hs & Hwf & Hc).
  assert (Hr : rows g = 7%nat) by (unfold rows; now rewrite Hs).
  assert (Hk : cols g = 7%nat) by (unfold cols; now rewrite Hs).
  destruct (most_likely_spec g Hwf) as (hi & ai & Hm & Hhi & Hai & _); [lia | lia |].
  assert (Hpos : 0 < total_mass g)
    by (apply (grid_total_pos lh la 6 g); [lra | lra | exact Hg]).
  exists g, hi, ai. repeat split; try assumption.
  - apply (grid_cell_pos lh la 6 g); try lra; try assumption; lia.
  - unfold predict. rewrite He, Hg, Hm.
    rewrite (outcome_probs_regions g Hwf), !np_div_finite by lra.
    reflexivity.
Qed.

End PipelineFacts.

(** C4: for all rates and every pair (h, a) with h, a <= max_goals, the
    grid built by [score_matrix] has cell [h, a] equal to
    (e^(-lh) lh^h / h!) (e^(-la) la^a / a!); for the rates 1.5 and 1.0 and
    max_goals = 6 the cell [1, 1] is that product for h = a = 1 and lies
    within 0.0001 of 0.1232. *)
Theorem C4_grid_cells (lh la : R) (max_goals : nat) :
  (exists g,
     Engine.score_matrix lh la max_goals = Some g /\
     Np.shape g = ((max_goals + 1)%nat, (max_goals + 1)%nat) /\
     forall h a, (h <= max_goals)%nat -> (a <= max_goals)%nat ->
       Np.cell g h a
       = (exp (- lh) * lh ^ h / INR (fact h)) * (exp (- la) * la ^ a / INR (fact a))) /\
  (exists g,
     Engine.score_matrix 1.5 1.0 6 = Some g /\
     Np.cell g 1 1
     = (exp (- (1.5)) * 1.5 ^ 1 / INR (fact 1)) * (exp (- (1.0)) * 1.0 ^ 1 / INR (fact 1)) /\
     Rabs (Np.cell g 1 1 - 0.1232) < 0.0001).
Proof.
  split.
  - destruct (score_matrix_spec lh la max_goals) as (g & Hg & Hs & _ & Hc).
    exists g. repeat split; try assumption.
  - destruct (score_matrix_spec 1.5 1.0 6) as (g & Hg & _ & _ & Hc).
    exists g. split; [exact Hg|].
    rewrite (Hc 1%nat 1%nat) by lia.
    split; [reflexivity|].
    pose proof poisson_1_1_bounds as HB.
    apply Rabs_def1; lra.
Qed.

Lemma C4_grid_cells_witness :
  exists g,
    Engine.score_matrix 2.0 0.5 3 = Some g /\
    Np.cell g 3 2
    = (exp (- (2.0)) * 2.0 ^ 3 / INR (fact 3)) * (exp (- (0.5)) * 0.5 ^ 2 / INR (fact 2)).
Proof.
  destruct (proj1 (C4_grid_cells 2.0 0.5 3)) as (g & Hg & _ & Hc).
  exists g. split; [exact Hg|].
  apply Hc; lia.
Defined.

(** C9, as stated, fails: for the summaries of the scenario the code
    computes lambdaHome = max(0.2, 0.65 * 2.0 + 0.35 * 1.5) * 1.12 = 2.044,
    not 1.8825. *)
Lemma C9_counterexample :
  Rates.estimate Form.home_2_1 Form.away_1_15 "clear" = Some (2.044, 1.0) /\
  2.044 <> 1.8825.
Proof.
  split; [|lra]. apply scenario_rates; reflexivity.
Qed.

(** C9, amended: for a home summary with gf = 2.0, ga = 1.0, an away
    summary with gf = 1.0, ga = 1.5 and the weather "clear", the pipeline
    yields lambdaHome = max(0.2, 0.65 * 2.0 + 0.35 * 1.5) * 1.12 = 2.044 and
    lambdaAway = 1.0, and the grid and the aggregation of these rates give
    pHome > pAway. *)
Theorem C9_end_to_end (hs as_ : Form.summary) :
  Form.gf hs = 2.0 -> Form.ga hs = 1.0 ->
  Form.gf as_ = 1.0 -> Form.ga as_ = 1.5 ->
  exists p ph pd pa,
    Engine.predict hs as_ "clear" = Some p /\
    Engine.lh p = Rmax 0.2 (0.65 * 2.0 + 0.35 * 1.5) * 1.12 /\
    Engine.lh p = 2.044 /\
    Engine.la p = 1.0 /\
    Engine.probs p = (Np.Finite ph, Np.Finite pd, Np.Finite pa) /\
    pa < ph.
Proof.
  intros H1 H2 H3 H4.
  pose proof (scenario_rates hs as_ H1 H2 H3 H4) as He.
  destruct (predict_returns hs as_ "clear" 2.044 1.0 He)
    as (g & hi & ai & Hg & _ & _ & Hp).
  eexists _, _, _, _. split; [exact Hp|].
  cbn [Engine.lh Engine.la Engine.probs].
  split; [unfold Rmax; destruct (Rle_dec _ _); lra|].
  repeat split.
  assert (Hpos : 0 < Engine.total_mass g)
    by (apply (grid_total_pos 2.044 1.0 6 g); [lra | lra | exact Hg]).
  assert (Hlt : Engine.above_diagonal g < Engine.below_diagonal g)
    by (apply (home_favoured 2.044 1.0 6 g); try lra; try exact Hg; lia).
  apply Rmult_lt_compat_r; [now apply Rinv_0_lt_compat | exact Hlt].
Qed.

Lemma C9_end_to_end_witness :
  exists p ph pd pa,
    Engine.predict Form.home_2_1 Form.away_1_15 "clear" = Some p /\
    Engine.lh p = Rmax 0.2 (0.65 * 2.0 + 0.35 * 1.5) * 1.12 /\
    Engine.lh p = 2.044 /\
    Engine.la p = 1.0 /\
    Engine.probs p = (Np.Finite ph, Np.Finite pd, Np.Finite pa) /\
    pa < ph.
Proof.
  apply (C9_end_to_end Form.home_2_1 Form.away_1_15); reflexivity.
Defined.

(** C10: for every pair of rates that the estimator returns, both rates
    are strictly positive, [score_matrix] returns a grid all of whose cells
    are strictly positive, the denominator of [outcome_probs] is strictly
    positive, so that its three divisions return finite values, and the
    most likely scoreline is a cell of strictly positive probability. *)
Theorem C10_pipeline_positive (hs as_ : Form.summary) (desc : string)
    (lh la : R) (max_goals : nat) :
  Rates.estimate hs as_ desc = Some (lh, la) ->
  0 < lh /\ 0 < la /\
  exists g,
    Engine.score_matrix lh la max_goals = Some g /\
    (forall h a, (h <= max_goals)%nat -> (a <= max_goals)%nat -> 0 < Np.cell g h a) /\
    0 < Engine.raw_home g + Engine.raw_draw g + Engine.raw_away g /\
    (exists ph pd pa,
       Engine.outcome_probs g = (Np.Finite ph, Np.Finite pd, Np.Finite pa)) /\
    (exists hi ai,
       Engine.most_likely_scoreline g = Some (hi, ai) /\ 0 < Np.cell g hi ai).
Proof.
  intros He.
  destruct (estimate_bounds hs as_ desc lh la He) as [Hh Ha].
  assert (Hlh : 0 < lh) by lra. assert (Hla : 0 < la) by lra.
  split; [exact Hlh|]. split; [exact Hla|].
  destruct (score_matrix_spec lh la max_goals) as (g & Hg & Hs & Hwf & Hc).
  assert (Hr : Np.rows g = (max_goals + 1)%nat) by (unfold Np.rows; now rewrite Hs).
  assert (Hk : Np.cols g = (max_goals + 1)%nat) by (unfold Np.cols; now rewrite Hs).
  pose proof (grid_denominator_pos lh la max_goals g Hlh Hla Hg) as Hden.
  exists g. split; [exact Hg|]. split; [|split; [exact Hden|split]].
  - intros h a Hh' Ha'. now apply (grid_cell_pos lh la max_goals g).
  - unfold Engine.outcome_probs. rewrite !np_div_finite by lra. eauto.
  - destruct (most_likely_spec g Hwf) as (hi & ai & Hm & Hhi & Hai & _); [lia | lia |].
    exists hi, ai. split; [exact Hm|].
    apply (grid_cell_pos lh la max_goals g); try assumption; lia.
Qed.

Lemma C10_pipeline_positive_witness :
  0 < 0.2128 /\ 0 < 0.19 /\
  exists g,
    Engine.score_matrix 0.2128 0.19 6 = Some g /\
    (forall h a, (h <= 6)%nat -> (a <= 6)%nat -> 0 < Np.cell g h a) /\
    0 < Engine.raw_home g + Engine.raw_draw g + Engine.raw_away g /\
    (exists ph pd pa,
       Engine.outcome_probs g = (Np.Finite ph, Np.Finite pd, Np.Finite pa)) /\
    (exists hi ai,
       Engine.most_likely_scoreline g = Some (hi, ai) /\ 0 < Np.cell g hi ai).
Proof.
  apply (C10_pipeline_positive Form.goalless Form.goalless "rain" 0.2128 0.19 6).
  rewrite (estimate_eq _ _ "rain" true) by reflexivity.
  unfold Rates.base_rates. cbn [fst snd Form.gf Form.ga Form.goalless].
  f_equal. f_equal; unfold Rmax, Rmin; repeat destruct (Rle_dec _ _); lra.
Defined.

(** * Further properties of the code *)

(** ** The form summarizer on windows with valid records *)

Section FormWindow.

Import Form.

Variable team_id : Z.

Lemma step_valid s m h a :
  valid_score m = Some (h, a) ->
  step team_id s m =
  {| a_gf := a_gf s + _gf team_id m h a;
     a_ga := a_ga s + _ga team_id m h a;
     a_pts := a_pts s + points team_id m;
     a_count := a_count s + 1 |}%Z.
Proof. intros H. unfold step. now rewrite H. Qed.

(** The loop skips the records without a score. *)
Lemma fold_filter ms : forall s,
  fold_left (step team_id) ms s = fold_left (step team_id) (filter is_valid ms) s.
Proof.
  induction ms as [|m ms IH]; intros s; [reflexivity|].
  cbn [fold_left filter]. destruct (is_valid m) eqn:Hm.
  - cbn [fold_left]. apply IH.
  - rewrite (step_invalid team_id s m Hm). apply IH.
Qed.

Lemma step_comm s m1 m2 :
  step team_id (step team_id s m1) m2 = step team_id (step team_id s m2) m1.
Proof.
  unfold step.
  destruct (valid_score m1) as [[h1 a1]|], (valid_score m2) as [[h2 a2]|];
    cbn [a_gf a_ga a_pts a_count]; try reflexivity.
  f_equal; lia.
Qed.

Lemma fold_permutation ms ms' :
  Permutation ms ms' ->
  forall s, fold_left (step team_id) ms s = fold_left (step team_id) ms' s.
Proof.
  induction 1 as [|m l l' _ IH|m1 m2 l|l l' l'' _ IH1 _ IH2]; intros s.
  - reflexivity.
  - cbn [fold_left]. apply IH.
  - cbn [fold_left]. now rewrite step_comm.
  - now rewrite IH1.
Qed.

Lemma points_range m : (0 <= points team_id m <= 3)%Z.
Proof.
  unfold points. destruct (winner m) as [w|]; [|lia].
  repeat match goal with |- context [if ?b then _ else _] => destruct b end; lia.
Qed.

(** The points never exceed three per counted game. *)
Lemma fold_points ms : forall s,
  (0 <= a_pts s <= 3 * a_count s)%Z -> (0 <= a_count s)%Z ->
  let s' := fold_left (step team_id) ms s in
  (0 <= a_pts s' <= 3 * a_count s')%Z /\ (0 <= a_count s')%Z.
Proof.
  induction ms as [|m ms IH]; intros s Hp Hc; [cbn; auto|].
  cbn [fold_left]. apply IH; unfold step;
    destruct (valid_score m) as [[h a]|]; cbn [a_pts a_count]; try assumption;
    pose proof (points_range m); lia.
Qed.

(** The counter is the number of valid records. *)
Lemma fold_count ms : forall s,
  a_count (fold_left (step team_id) ms s) = (a_count s + Z.of_nat (valid_count ms))%Z.
Proof.
  unfold valid_count.
  induction ms as [|m ms IH]; intros s; [cbn; lia|].
  cbn [fold_left filter]. rewrite IH. unfold step, is_valid.
  destruct (valid_score m) as [[h a]|]; cbn [a_count length]; lia.
Qed.

Lemma fold_goals ms : forall s,
  (forall m h a, In m ms -> valid_score m = Some (h, a) -> 0 <= h /\ 0 <= a)%Z ->
  (0 <= a_gf s)%Z -> (0 <= a_ga s)%Z ->
  let s' := fold_left (step team_id) ms s in
  (0 <= a_gf s')%Z /\ (0 <= a_ga s')%Z.
Proof.
  induction ms as [|m ms IH]; intros s Hms Hf Ha; [cbn; auto|].
  cbn [fold_left]. apply IH.
  - intros m' h a Hin. apply Hms. now right.
  - unfold step. destruct (valid_score m) as [[h a]|] eqn:E; [|assumption].
    destruct (Hms m h a (or_introl eq_refl) E). cbn [a_gf]. unfold _gf.
    destruct (team_id =? homeTeam_id m)%Z; lia.
  - unfold step. destruct (valid_score m) as [[h a]|] eqn:E; [|assumption].
    destruct (Hms m h a (or_introl eq_refl) E). cbn [a_ga]. unfold _ga.
    destruct (team_id =? homeTeam_id m)%Z; lia.
Qed.

Lemma stats_cons m ms :
  recent_team_stats team_id (m :: ms) =
  let s := fold_left (step team_id) (m :: ms) acc0 in
  let games := Z.max (a_count s) 1 in
  {| gf := IZR (a_gf s) / IZR games;
     ga := IZR (a_ga s) / IZR games;
     pts_per_game := IZR (a_pts s) / IZR games;
     form_val := IZR (a_pts s) / IZR games - 1.0 |}.
Proof. reflexivity. Qed.

End FormWindow.

Section FormSums.

Import Form.

Variable team_id : Z.

(** The accumulators after the loop are the sums over the window. *)
Lemma fold_sums ms : forall s,
  let s' := fold_left (step team_id) ms s in
  a_gf s' = (a_gf s + Zsum (map (goals_for team_id) ms))%Z /\
  a_ga s' = (a_ga s + Zsum (map (goals_against team_id) ms))%Z /\
  a_pts s' = (a_pts s + Zsum (map (points_won team_id) ms))%Z.
Proof.
  induction ms as [|m ms IH]; intros s; [cbn; lia|].
  cbn [fold_left map Zsum fold_right]. fold (Zsum (map (goals_for team_id) ms))
    (Zsum (map (goals_against team_id) ms)) (Zsum (map (points_won team_id) ms)).
  destruct (IH (step team_id s m)) as (E1 & E2 & E3). cbn zeta in *.
  rewrite E1, E2, E3. unfold step, goals_for, goals_against, points_won.
  destruct (valid_score m) as [[h a]|]; cbn [a_gf a_ga a_pts]; lia.
Qed.

End FormSums.

(** X1: records without a full-time score are ignored.  On a window with
    at least one valid record the summary is the summary of the valid
    records alone. *)
Theorem X1_invalid_records_ignored (team_id : Z) (ms : list Form.match_record) :
  Form.valid_count ms <> 0%nat ->
  Form.recent_team_stats team_id ms
  = Form.recent_team_stats team_id (filter Form.is_valid ms).
Proof.
  intros Hv. unfold Form.valid_count in Hv.
  destruct ms as [|m ms]; [now elim Hv|].
  destruct (filter Form.is_valid (m :: ms)) as [|m' ms'] eqn:E; [now elim Hv|].
  rewrite !stats_cons. cbn zeta.
  rewrite (fold_filter team_id (m :: ms)), E. reflexivity.
Qed.

Lemma X1_invalid_records_ignored_witness :
  Form.recent_team_stats 1 [Form.no_score; Form.home_win; Form.no_score]
  = Form.recent_team_stats 1 (filter Form.is_valid [Form.no_score; Form.home_win; Form.no_score]).
Proof.
  apply (X1_invalid_records_ignored 1 [Form.no_score; Form.home_win; Form.no_score]).
  vm_compute. discriminate.
Defined.

(** X2: the summary does not depend on the order of the records in the
    window. *)
Theorem X2_order_independent (team_id : Z) (ms ms' : list Form.match_record) :
  Permutation ms ms' ->
  Form.recent_team_stats team_id ms = Form.recent_team_stats team_id ms'.
Proof.
  intros HP. destruct ms as [|m ms].
  - apply Permutation_nil in HP. now subst.
  - destruct ms' as [|m' ms'].
    + apply Permutation_sym, Permutation_nil in HP. discriminate.
    + rewrite !stats_cons. cbn zeta.
      now rewrite (fold_permutation team_id _ _ HP).
Qed.

Lemma X2_order_independent_witness :
  Form.recent_team_stats 1 [Form.home_win; Form.away_draw]
  = Form.recent_team_stats 1 [Form.away_draw; Form.home_win].
Proof.
  apply (X2_order_independent 1 [Form.home_win; Form.away_draw]
           [Form.away_draw; Form.home_win]).
  apply perm_swap.
Defined.

(** X3: on a non-empty window the points per game lie in [0, 3] and the
    form value is the points per game minus one, hence in [-1, 2]; the
    default summary of the empty window does not keep that relation
    (1.5 points per game, form 0.0). *)
Theorem X3_points_per_game_range (team_id : Z) (ms : list Form.match_record) :
  (ms <> [] ->
   let s := Form.recent_team_stats team_id ms in
   0 <= Form.pts_per_game s <= 3 /\
   Form.form_val s = Form.pts_per_game s - 1 /\
   -1 <= Form.form_val s <= 2) /\
  Form.form_val (Form.recent_team_stats team_id [])
  <> Form.pts_per_game (Form.recent_team_stats team_id []) - 1.
Proof.
  split.
  - intros Hne. destruct ms as [|m ms]; [now elim Hne|]. clear Hne.
    rewrite stats_cons. cbn zeta. cbn [Form.pts_per_game Form.form_val].
    destruct (fold_points team_id (m :: ms) Form.acc0) as [Hp Hc];
      [cbn; lia | cbn; lia |].
    set (s := fold_left (Form.step team_id) (m :: ms) Form.acc0) in *.
    assert (Hg : (1 <= Z.max (Form.a_count s) 1)%Z) by lia.
    assert (Hle : (Form.a_pts s <= 3 * Z.max (Form.a_count s) 1)%Z) by lia.
    apply IZR_le in Hg. apply IZR_le in Hle. rewrite mult_IZR in Hle.
    assert (H0 : 0 <= IZR (Form.a_pts s)) by (apply IZR_le; lia).
    set (p := IZR (Form.a_pts s)) in *.
    set (c := IZR (Z.max (Form.a_count s) 1)) in *.
    assert (Hq : 0 <= p / c <= 3).
    { split.
      - apply Rmult_le_pos; [exact H0 | left; apply Rinv_0_lt_compat; lra].
      - apply Rmult_le_reg_r with c; [lra|].
        unfold Rdiv. rewrite Rmult_assoc, Rinv_l by lra. lra. }
    repeat split; lra.
  - cbn [Form.recent_team_stats Form.default_summary Form.form_val Form.pts_per_game].
    lra.
Qed.

Lemma X3_points_per_game_range_witness :
  let s := Form.recent_team_stats 1 [Form.home_win; Form.away_draw] in
  0 <= Form.pts_per_game s <= 3 /\
  Form.form_val s = Form.pts_per_game s - 1 /\
  -1 <= Form.form_val s <= 2.
Proof.
  apply (proj1 (X3_points_per_game_range 1 [Form.home_win; Form.away_draw])).
  discriminate.
Defined.

Section FormAverages.

Import Form.

Lemma Zsum_map_ext (f g : match_record -> Z) ms :
  (forall m, In m ms -> f m = g m) -> Zsum (map f ms) = Zsum (map g ms).
Proof.
  induction ms as [|m ms IH]; intros H; [reflexivity|].
  cbn [map Zsum fold_right]. fold (Zsum (map f ms)) (Zsum (map g ms)).
  rewrite (H m (or_introl eq_refl)), IH; [reflexivity|].
  intros m' Hin. apply H. now right.
Qed.

(** The summary of a non-empty window, with the loop replaced by sums. *)
Lemma stats_closed_form team_id ms :
  ms <> [] ->
  let games := IZR (Z.max (Z.of_nat (valid_count ms)) 1) in
  let s := recent_team_stats team_id ms in
  gf s = IZR (Zsum (map (goals_for team_id) ms)) / games /\
  ga s = IZR (Zsum (map (goals_against team_id) ms)) / games /\
  pts_per_game s = IZR (Zsum (map (points_won team_id) ms)) / games.
Proof.
  intros Hne. destruct ms as [|m ms]; [now elim Hne|]. clear Hne.
  cbn zeta. rewrite stats_cons. cbn zeta. cbn [gf ga pts_per_game].
  destruct (fold_sums team_id (m :: ms) acc0) as (E1 & E2 & E3).
  rewrite E1, E2, E3, (fold_count team_id (m :: ms) acc0).
  cbn [acc0 a_gf a_ga a_pts a_count]. rewrite !Z.add_0_l. auto.
Qed.

End FormAverages.

(** X4: on a non-empty window the three averages are the total goals
    for, the total goals against and the total points of the valid records
    (3 for a win of the team's side, 1 for a draw), each divided by the
    number of valid records, or by 1 when there is none. *)
Theorem X4_averages_over_valid_records (team_id : Z) (ms : list Form.match_record) :
  ms <> [] ->
  let games := IZR (Z.max (Z.of_nat (Form.valid_count ms)) 1) in
  let s := Form.recent_team_stats team_id ms in
  Form.gf s = IZR (Form.Zsum (map (Form.goals_for team_id) ms)) / games /\
  Form.ga s = IZR (Form.Zsum (map (Form.goals_against team_id) ms)) / games /\
  Form.pts_per_game s = IZR (Form.Zsum (map (Form.points_won team_id) ms)) / games.
Proof. apply stats_closed_form. Qed.

Lemma X4_averages_over_valid_records_witness :
  let s := Form.recent_team_stats 1 [Form.home_win; Form.no_score] in
  Form.gf s = 3 /\ Form.ga s = 0 /\ Form.pts_per_game s = 3.
Proof.
  pose proof (X4_averages_over_valid_records 1 [Form.home_win; Form.no_score]
                ltac:(discriminate)) as H.
  cbn zeta in *. destruct H as (H1 & H2 & H3).
  rewrite H1, H2, H3.
  change (Form.Zsum (map (Form.goals_for 1) [Form.home_win; Form.no_score])) with 3%Z.
  change (Form.Zsum (map (Form.goals_against 1) [Form.home_win; Form.no_score])) with 0%Z.
  change (Form.Zsum (map (Form.points_won 1) [Form.home_win; Form.no_score])) with 3%Z.
  change (Z.max (Z.of_nat (Form.valid_count [Form.home_win; Form.no_score])) 1) with 1%Z.
  repeat split; lra.
Defined.

(** X5: goals for one side are goals against the other.  When in every
    record of a non-empty window exactly one of two team ids is the home
    team, the goals-for average of either id is the goals-against average
    of the other. *)
Theorem X5_goals_for_against_duality (t1 t2 : Z) (ms : list Form.match_record) :
  ms <> [] ->
  (forall m, In m ms ->
     (t1 =? Form.homeTeam_id m)%Z = negb (t2 =? Form.homeTeam_id m)%Z) ->
  Form.gf (Form.recent_team_stats t1 ms) = Form.ga (Form.recent_team_stats t2 ms) /\
  Form.ga (Form.recent_team_stats t1 ms) = Form.gf (Form.recent_team_stats t2 ms).
Proof.
  intros Hne Hx.
  destruct (stats_closed_form t1 ms Hne) as (G1 & A1 & _).
  destruct (stats_closed_form t2 ms Hne) as (G2 & A2 & _).
  cbn zeta in *. rewrite G1, A1, G2, A2.
  rewrite (Zsum_map_ext (Form.goals_for t1) (Form.goals_against t2) ms).
  - rewrite (Zsum_map_ext (Form.goals_against t1) (Form.goals_for t2) ms); [auto|].
    intros m Hin. unfold Form.goals_for, Form.goals_against, Form._gf, Form._ga.
    rewrite (Hx m Hin).
    destruct (Form.valid_score m) as [[h a]|]; [|reflexivity].
    now destruct (t2 =? Form.homeTeam_id m)%Z.
  - intros m Hin. unfold Form.goals_for, Form.goals_against, Form._gf, Form._ga.
    rewrite (Hx m Hin).
    destruct (Form.valid_score m) as [[h a]|]; [|reflexivity].
    now destruct (t2 =? Form.homeTeam_id m)%Z.
Qed.

Lemma X5_goals_for_against_duality_witness :
  Form.gf (Form.recent_team_stats 1 [Form.home_win; Form.away_draw])
  = Form.ga (Form.recent_team_stats 2 [Form.home_win; Form.away_draw]) /\
  Form.ga (Form.recent_team_stats 1 [Form.home_win; Form.away_draw])
  = Form.gf (Form.recent_team_stats 2 [Form.home_win; Form.away_draw]).
Proof.
  apply (X5_goals_for_against_duality 1 2 [Form.home_win; Form.away_draw]).
  - discriminate.
  - intros m [<-|[<-|[]]]; reflexivity.
Defined.

(** X6: when the goal counts of the records are non-negative, the
    summary of every window, empty or not, has non-negative goals for,
    goals against and points per game. *)
Theorem X6_summary_non_negative (team_id : Z) (ms : list Form.match_record) :
  (forall m h a, In m ms -> Form.valid_score m = Some (h, a) -> 0 <= h /\ 0 <= a)%Z ->
  let s := Form.recent_team_stats team_id ms in
  0 <= Form.gf s /\ 0 <= Form.ga s /\ 0 <= Form.pts_per_game s.
Proof.
  intros Hms. destruct ms as [|m ms].
  - cbn. lra.
  - cbn zeta. rewrite stats_cons. cbn zeta.
    cbn [Form.gf Form.ga Form.pts_per_game].
    destruct (fold_goals team_id (m :: ms) Form.acc0 Hms) as [Hf Ha]; [cbn; lia | cbn; lia |].
    destruct (fold_points team_id (m :: ms) Form.acc0) as [Hp _]; [cbn; lia | cbn; lia |].
    set (s := fold_left (Form.step team_id) (m :: ms) Form.acc0) in *.
    assert (Hg : 0 < IZR (Z.max (Form.a_count s) 1)) by (apply IZR_lt; lia).
    pose proof (Rinv_0_lt_compat _ Hg) as Hi.
    repeat split; apply Rmult_le_pos; try lra; apply IZR_le; lia.
Qed.

Lemma X6_summary_non_negative_witness :
  let s := Form.recent_team_stats 2 [Form.home_win; Form.away_draw] in
  0 <= Form.gf s /\ 0 <= Form.ga s /\ 0 <= Form.pts_per_game s.
Proof.
  apply (X6_summary_non_negative 2 [Form.home_win; Form.away_draw]).
  intros m h a [<-|[<-|[]]] E; injection E as <- <-; lia.
Defined.

(** ** The estimator as a function of the summaries *)

Section RatesOrder.

Import Form Rates Np Engine.

Lemma estimate_inv hs as_ desc lh la :
  estimate hs as_ desc = Some (lh, la) ->
  exists d, dampened desc = Some d /\
    lh = Rmin ((if d then 0.95 else 1) * fst (base_rates hs as_)) 3.2 /\
    la = Rmin ((if d then 0.95 else 1) * snd (base_rates hs as_)) 3.2.
Proof.
  intros He. destruct (dampened desc) as [d|] eqn:Hd.
  - rewrite (estimate_eq hs as_ desc d Hd) in He. injection He as <- <-. eauto.
  - rewrite estimate_none in He by exact Hd. discriminate.
Qed.



End RatesOrder.





(** ** The mass of the grid *)

Section GridMass.

Import Np Engine.

Lemma sum_n_scal_l n c F : sum_n n (fun i => c * F i) = c * sum_n n F.
Proof.
  induction n as [|n IH]; [rewrite !sum_n_0; lra|].
  rewrite !sum_n_S, IH. lra.
Qed.

Lemma sum_n_scal_r n c F : sum_n n (fun i => F i * c) = sum_n n F * c.
Proof.
  induction n as [|n IH]; [rewrite !sum_n_0; lra|].
  rewrite !sum_n_S, IH. lra.
Qed.

Lemma sum_n_sum_f_R0 n F : sum_n (S n) F = sum_f_R0 F n.
Proof.
  induction n as [|n IH].
  - rewrite sum_n_S, sum_n_0. cbn [sum_f_R0]. lra.
  - rewrite sum_n_S, IH. reflexivity.
Qed.

(** The partial sums of the exponential series stay below its limit. *)
Lemma exp_partial_sum lam n :
  0 <= lam -> sum_f_R0 (fun k => / INR (fact k) * lam ^ k) n <= exp lam.
Proof.
  intros Hl. apply sum_incr.
  - unfold exp. destruct (exist_exp lam) as [l Hl']. cbn [proj1_sig]. exact Hl'.
  - intros k. apply Rmult_le_pos; [|now apply pow_le].
    left. apply Rinv_0_lt_compat, INR_fact_lt_0.
Qed.

(** A truncated Poisson distribution has at most unit mass. *)
Lemma poisson_partial_mass lam n :
  0 <= lam -> sum_n (S n) (fun k => poisson_prob k lam) <= 1.
Proof.
  intros Hl.
  rewrite (sum_n_ext _ _ (fun k => exp (- lam) * (/ INR (fact k) * lam ^ k))).
  2:{ intros k _. unfold poisson_prob, Rdiv. ring. }
  rewrite sum_n_scal_l, sum_n_sum_f_R0.
  pose proof (exp_partial_sum lam n Hl) as Hs.
  pose proof (exp_pos (- lam)) as Hp.
  replace 1 with (exp (- lam) * exp lam)
    by (rewrite <- exp_plus, Rplus_opp_l; apply exp_0).
  apply Rmult_le_compat_l; lra.
Qed.

(** The sum of the whole buffer, cell by cell. *)
Lemma np_sum_cells g : wf g -> np_sum g = sum_cells (fun _ _ => true) g.
Proof.
  intros Hwf. unfold np_sum.
  rewrite <- (masked_sum g (fun _ x => x) (fun _ _ => true) Hwf) by reflexivity.
  f_equal. generalize 0%nat.
  induction (data g) as [|x l IH]; intros i; [reflexivity|].
  cbn [mapi_from]. now rewrite <- IH.
Qed.

(** A sum of non-negative cells with one positive cell kept is positive. *)
Lemma sum_cells_pos keep g h0 a0 :
  (forall h a, (h < rows g)%nat -> (a < cols g)%nat -> 0 < cell g h a) ->
  (h0 < rows g)%nat -> (a0 < cols g)%nat -> keep h0 a0 = true ->
  0 < sum_cells keep g.
Proof.
  intros Hpos Hh Ha Hk. unfold sum_cells.
  assert (Hterm : forall h a, (h < rows g)%nat -> (a < cols g)%nat ->
            0 <= (if keep h a then cell g h a else 0)).
  { intros h a Hh' Ha'. destruct (keep h a); [left; now apply Hpos | lra]. }
  apply Rle_lt_trans with (sum_n (rows g) (fun _ => 0));
    [rewrite sum_n_zero by reflexivity; lra|].
  apply (sum_n_lt _ h0); [exact Hh | |].
  - apply Rle_lt_trans with (sum_n (cols g) (fun _ => 0));
      [rewrite sum_n_zero by reflexivity; lra|].
    apply (sum_n_lt _ a0); [exact Ha | |].
    + rewrite Hk. now apply Hpos.
    + intros a Ha'. now apply Hterm.
  - intros h Hh'. apply sum_n_nonneg. intros a Ha'. now apply Hterm.
Qed.

Lemma grid_mass_product lh la max_goals g :
  score_matrix lh la max_goals = Some g ->
  total_mass g
  = sum_n (max_goals + 1) (fun h => poisson_prob h lh)
    * sum_n (max_goals + 1) (fun a => poisson_prob a la).
Proof.
  intros Hg. destruct (grid_of_rates lh la max_goals g Hg) as (_ & _ & Hc).
  rewrite total_mass_all. unfold sum_cells.
  rewrite (grid_rows lh la max_goals g Hg), (grid_cols lh la max_goals g Hg).
  rewrite <- sum_n_scal_r. apply sum_n_ext. intros h Hh.
  rewrite <- sum_n_scal_l. apply sum_n_ext. intros a Ha.
  apply Hc; lia.
Qed.

End GridMass.

(** X9: the mass of the grid is the product of the masses of the two
    truncated Poisson distributions; for positive rates it is positive and
    at most 1, so the normalisation of [outcome_probs] never scales the raw
    sums down. *)
Theorem X9_grid_mass (lh la : R) (max_goals : nat) (g : Np.ndarray) :
  0 < lh -> 0 < la ->
  Engine.score_matrix lh la max_goals = Some g ->
  Engine.total_mass g
  = sum_n (max_goals + 1) (fun h => Engine.poisson_prob h lh)
    * sum_n (max_goals + 1) (fun a => Engine.poisson_prob a la) /\
  0 < Engine.total_mass g <= 1.
Proof.
  intros Hlh Hla Hg. split; [now apply grid_mass_product|].
  split; [now apply (grid_total_pos lh la max_goals g)|].
  rewrite (grid_mass_product lh la max_goals g Hg), Nat.add_1_r.
  pose proof (poisson_partial_mass lh max_goals ltac:(lra)) as H1.
  pose proof (poisson_partial_mass la max_goals ltac:(lra)) as H2.
  assert (0 <= sum_n (S max_goals) (fun h => Engine.poisson_prob h lh)).
  { apply sum_n_nonneg. intros. left. now apply poisson_prob_pos. }
  assert (0 <= sum_n (S max_goals) (fun a => Engine.poisson_prob a la)).
  { apply sum_n_nonneg. intros. left. now apply poisson_prob_pos. }
  nra.
Qed.

Lemma X9_grid_mass_witness :
  exists g,
    Engine.score_matrix 1.5 1.0 6 = Some g /\ 0 < Engine.total_mass g <= 1.
Proof.
  destruct (Engine.score_matrix 1.5 1.0 6) as [g|] eqn:Hg.
  - exists g. split; [reflexivity|].
    apply (X9_grid_mass 1.5 1.0 6 g); [lra | lra | exact Hg].
  - destruct (score_matrix_spec 1.5 1.0 6) as (g & Hg' & _). congruence.
Defined.

Section Probabilities.

Import Np Engine.

Lemma share_bounds x y z :
  0 < x -> 0 < y -> 0 < z -> 0 < x / (x + y + z) < 1.
Proof.
  intros Hx Hy Hz.
  assert (Ht : 0 < x + y + z) by lra.
  pose proof (Rinv_0_lt_compat _ Ht) as Hi.
  split.
  - now apply Rmult_lt_0_compat.
  - apply Rmult_lt_reg_r with (x + y + z); [exact Ht|].
    unfold Rdiv. rewrite Rmult_assoc, Rinv_l by lra. lra.
Qed.

Lemma share_bounds_le x t : 0 <= x <= t -> 0 < t -> 0 <= x / t <= 1.
Proof.
  intros Hx Ht. pose proof (Rinv_0_lt_compat _ Ht) as Hi. split.
  - apply Rmult_le_pos; lra.
  - apply Rmult_le_reg_r with t; [exact Ht|].
    unfold Rdiv. rewrite Rmult_assoc, Rinv_l by lra. lra.
Qed.

(** The three regions of a grid of positive cells with at least two rows
    and two columns all carry mass. *)
Lemma regions_pos g :
  (forall h a, (h < rows g)%nat -> (a < cols g)%nat -> 0 < cell g h a) ->
  (1 < rows g)%nat -> (1 < cols g)%nat ->
  0 < below_diagonal g /\ 0 < on_diagonal g /\ 0 < above_diagonal g.
Proof.
  intros Hpos Hr Hc. repeat split.
  - apply (sum_cells_pos _ g 1%nat 0%nat); auto; lia.
  - apply (sum_cells_pos _ g 0%nat 0%nat); auto; lia.
  - apply (sum_cells_pos _ g 0%nat 1%nat); auto; lia.
Qed.

Lemma predict_inv hs as_ desc p :
  predict hs as_ desc = Some p ->
  exists lh la, Rates.estimate hs as_ desc = Some (lh, la).
Proof.
  unfold predict. destruct (Rates.estimate hs as_ desc) as [[lh la]|]; [eauto | discriminate].
Qed.

Lemma sum_cells_nonneg keep g :
  (forall h a, (h < rows g)%nat -> (a < cols g)%nat -> 0 <= cell g h a) ->
  0 <= sum_cells keep g.
Proof.
  intros Hc. unfold sum_cells. apply sum_n_nonneg. intros h Hh.
  apply sum_n_nonneg. intros a Ha. destruct (keep h a); [now apply Hc | lra].
Qed.

End Probabilities.

(** X10: whenever the pipeline returns, its three outcome values are
    proper probabilities: each lies strictly between 0 and 1 and they sum
    to 1. *)
Theorem X10_proper_probabilities (hs as_ : Form.summary) (desc : string)
    (p : Engine.prediction) :
  Engine.predict hs as_ desc = Some p ->
  exists ph pd pa,
    Engine.probs p = (Np.Finite ph, Np.Finite pd, Np.Finite pa) /\
    0 < ph < 1 /\ 0 < pd < 1 /\ 0 < pa < 1 /\ ph + pd + pa = 1.
Proof.
  intros Hp. destruct (predict_inv hs as_ desc p Hp) as (lh & la & He).
  destruct (predict_returns hs as_ desc lh la He) as (g & hi & ai & Hg & _ & _ & Hp').
  rewrite Hp in Hp'. injection Hp' as ->. cbn [Engine.probs].
  destruct (estimate_bounds hs as_ desc lh la He) as [Bh Ba].
  assert (Hlh : 0 < lh) by lra. assert (Hla : 0 < la) by lra.
  pose proof (grid_rows lh la 6 g Hg) as Hr.
  pose proof (grid_cols lh la 6 g Hg) as Hc.
  destruct (regions_pos g) as (Hb & Hd & Ha); [|lia|lia|].
  { intros h a Hh Ha. apply (grid_cell_pos lh la 6 g); try assumption; lia. }
  eexists _, _, _. split; [reflexivity|].
  unfold Engine.total_mass.
  set (b := Engine.below_diagonal g) in *.
  set (d := Engine.on_diagonal g) in *.
  set (a := Engine.above_diagonal g) in *.
  split; [apply share_bounds; assumption|].
  split; [replace (b + d + a) with (d + b + a) by ring; apply share_bounds; assumption|].
  split; [replace (b + d + a) with (a + b + d) by ring; apply share_bounds; assumption|].
  field. lra.
Qed.

Lemma X10_proper_probabilities_witness :
  exists p ph pd pa,
    Engine.predict Form.default_summary Form.goalless "snow" = Some p /\
    Engine.probs p = (Np.Finite ph, Np.Finite pd, Np.Finite pa) /\
    0 < ph < 1 /\ 0 < pd < 1 /\ 0 < pa < 1 /\ ph + pd + pa = 1.
Proof.
  destruct (Rates.estimate Form.default_summary Form.goalless "snow")
    as [[lh la]|] eqn:He.
  - destruct (predict_returns _ _ _ _ _ He) as (g & hi & ai & _ & _ & _ & Hp).
    destruct (X10_proper_probabilities _ _ _ _ Hp) as (ph & pd & pa & H).
    eexists _, ph, pd, pa. split; [exact Hp | exact H].
  - rewrite (estimate_eq _ _ "snow" true) in He by reflexivity. discriminate.
Defined.

(** X11: exchanging the two rates transposes the grid, so it exchanges
    the home-win and away-win probabilities and keeps the draw
    probability. *)
Theorem X11_exchanged_rates (lh la : R) (max_goals : nat) (g g' : Np.ndarray) :
  Engine.score_matrix lh la max_goals = Some g ->
  Engine.score_matrix la lh max_goals = Some g' ->
  (forall h a, (h <= max_goals)%nat -> (a <= max_goals)%nat ->
     Np.cell g' a h = Np.cell g h a) /\
  exists ph pd pa,
    Engine.outcome_probs g = (ph, pd, pa) /\
    Engine.outcome_probs g' = (pa, pd, ph).
Proof.
  intros Hg Hg'.
  destruct (grid_of_rates lh la max_goals g Hg) as (_ & Hwf & Hc).
  destruct (grid_of_rates la lh max_goals g' Hg') as (_ & Hwf' & Hc').
  pose proof (grid_rows lh la max_goals g Hg) as Hr.
  pose proof (grid_cols lh la max_goals g Hg) as Hk.
  pose proof (grid_rows la lh max_goals g' Hg') as Hr'.
  pose proof (grid_cols la lh max_goals g' Hg') as Hk'.
  assert (Ht : forall h a, (h <= max_goals)%nat -> (a <= max_goals)%nat ->
             Np.cell g' a h = Np.cell g h a).
  { intros h a Hh Ha. rewrite Hc, Hc' by assumption. apply Rmult_comm. }
  split; [exact Ht|].
  assert (E1 : Engine.above_diagonal g' = Engine.below_diagonal g).
  { rewrite above_diagonal_transposed by congruence.
    unfold Engine.below_diagonal, Engine.sum_cells. rewrite Hr, Hk, Hr', Hk'.
    apply sum_n_ext. intros h Hh. apply sum_n_ext. intros a Ha.
    destruct (a <? h)%nat; [apply Ht; lia | reflexivity]. }
  assert (E2 : Engine.above_diagonal g = Engine.below_diagonal g').
  { rewrite above_diagonal_transposed by congruence.
    unfold Engine.below_diagonal, Engine.sum_cells. rewrite Hr, Hk, Hr', Hk'.
    apply sum_n_ext. intros h Hh. apply sum_n_ext. intros a Ha.
    destruct (a <? h)%nat; [symmetry; apply Ht; lia | reflexivity]. }
  assert (E3 : Engine.on_diagonal g' = Engine.on_diagonal g).
  { unfold Engine.on_diagonal, Engine.sum_cells. rewrite Hr, Hk, Hr', Hk'.
    apply sum_n_ext. intros h Hh. apply sum_n_ext. intros a Ha.
    destruct (Nat.eqb_spec a h) as [->|]; [apply Ht; lia | reflexivity]. }
  eexists _, _, _. split; [apply (outcome_probs_regions g Hwf)|].
  rewrite (outcome_probs_regions g' Hwf'). unfold Engine.total_mass.
  rewrite E1, E3, <- E2.
  replace (Engine.below_diagonal g + Engine.on_diagonal g + Engine.above_diagonal g)
    with (Engine.above_diagonal g + Engine.on_diagonal g + Engine.below_diagonal g)
    by ring.
  reflexivity.
Qed.

Lemma X11_exchanged_rates_witness :
  exists g g' ph pd pa,
    Engine.score_matrix 2.044 1.0 6 = Some g /\
    Engine.score_matrix 1.0 2.044 6 = Some g' /\
    Engine.outcome_probs g = (ph, pd, pa) /\
    Engine.outcome_probs g' = (pa, pd, ph).
Proof.
  destruct (score_matrix_spec 2.044 1.0 6) as (g & Hg & _).
  destruct (score_matrix_spec 1.0 2.044 6) as (g' & Hg' & _).
  destruct (X11_exchanged_rates 2.044 1.0 6 g g' Hg Hg') as (_ & ph & pd & pa & H1 & H2).
  exists g, g', ph, pd, pa. auto.
Defined.

(** ** The mode of the grid *)

Section PoissonMode.

Import Np Engine.

Variable lam : R.
Hypothesis Hlam : 0 < lam.

Lemma poisson_succ k :
  poisson_prob (S k) lam = poisson_prob k lam * (lam / INR (S k)).
Proof.
  unfold poisson_prob. rewrite fact_simpl, mult_INR. cbn [pow].
  field. split; try apply INR_fact_neq_0; apply not_0_INR; lia.
Qed.

Lemma poisson_rise k : INR (S k) < lam -> poisson_prob k lam < poisson_prob (S k) lam.
Proof.
  intros Hk. rewrite poisson_succ.
  pose proof (poisson_prob_pos k lam Hlam) as Hp.
  assert (Hs : 0 < INR (S k)) by (apply lt_0_INR; lia).
  assert (1 < lam / INR (S k)).
  { apply Rmult_lt_reg_r with (INR (S k)); [exact Hs|].
    unfold Rdiv. rewrite Rmult_assoc, Rinv_l by lra. lra. }
  nra.
Qed.

Lemma poisson_fall k : lam <= INR (S k) -> poisson_prob (S k) lam <= poisson_prob k lam.
Proof.
  intros Hk. rewrite poisson_succ.
  pose proof (poisson_prob_pos k lam Hlam) as Hp.
  assert (Hs : 0 < INR (S k)) by (apply lt_0_INR; lia).
  assert (lam / INR (S k) <= 1).
  { apply Rmult_le_reg_r with (INR (S k)); [exact Hs|].
    unfold Rdiv. rewrite Rmult_assoc, Rinv_l by lra. lra. }
  assert (0 < lam / INR (S k)) by (apply Rdiv_lt_0_compat; lra).
  nra.
Qed.

(** Up to a count below the rate the probabilities grow strictly. *)
Lemma poisson_rising j : INR j < lam -> forall k, (k < j)%nat ->
  poisson_prob k lam < poisson_prob j lam.
Proof.
  induction j as [|j IH]; intros Hj k Hk; [lia|].
  pose proof (poisson_rise j Hj) as Hr.
  destruct (Nat.eq_dec k j) as [->|Hne]; [exact Hr|].
  apply Rlt_trans with (poisson_prob j lam); [|exact Hr].
  apply IH; [rewrite S_INR in Hj; lra | lia].
Qed.

Variable m : nat.
Hypothesis Hm : INR m < lam <= INR m + 1.

(** Below the mode the probabilities are strictly smaller. *)
Lemma poisson_before_mode k : (k < m)%nat -> poisson_prob k lam < poisson_prob m lam.
Proof. apply poisson_rising. lra. Qed.

(** From the mode on the probabilities do not grow. *)
Lemma poisson_after_mode k : (m <= k)%nat -> poisson_prob k lam <= poisson_prob m lam.
Proof.
  induction 1 as [|k Hle IH]; [lra|].
  apply Rle_trans with (poisson_prob k lam); [|exact IH].
  apply poisson_fall. apply le_INR in Hle. rewrite S_INR. lra.
Qed.

Lemma poisson_mode k : poisson_prob k lam <= poisson_prob m lam.
Proof.
  destruct (Nat.lt_ge_cases k m) as [Hlt|Hge].
  - left. now apply poisson_before_mode.
  - now apply poisson_after_mode.
Qed.

End PoissonMode.

Section GridMode.

Import Np Engine.

(** Two factors bounded by positive maxima whose product reaches the
    product of the maxima are the maxima. *)
Lemma product_at_maximum p q P Q :
  0 < p <= P -> 0 < q <= Q -> P * Q <= p * q -> p = P /\ q = Q.
Proof. intros Hp Hq H. split; nra. Qed.

(** The scoreline of the grid of two positive rates, from the modes of
    the two distributions. *)
Lemma grid_mode lh la max_goals g mh ma :
  0 < lh -> 0 < la ->
  INR mh < lh <= INR mh + 1 -> INR ma < la <= INR ma + 1 ->
  (mh <= max_goals)%nat -> (ma <= max_goals)%nat ->
  score_matrix lh la max_goals = Some g ->
  most_likely_scoreline g = Some (mh, ma).
Proof.
  intros Hlh Hla Hmh Hma Hh Ha Hg.
  destruct (grid_of_rates lh la max_goals g Hg) as (_ & Hwf & Hc).
  pose proof (grid_rows lh la max_goals g Hg) as Hr.
  pose proof (grid_cols lh la max_goals g Hg) as Hk.
  destruct (most_likely_spec g Hwf) as (hi & ai & Hm & Hhi & Hai & Hmax & Hfirst);
    [lia | lia |].
  rewrite Hm. f_equal.
  assert (Htop : cell g mh ma <= cell g hi ai) by (apply Hmax; lia).
  rewrite !Hc in Htop by lia.
  destruct (product_at_maximum (poisson_prob hi lh) (poisson_prob ai la)
              (poisson_prob mh lh) (poisson_prob ma la)) as [Eh Ea].
  - split; [now apply poisson_prob_pos | now apply poisson_mode].
  - split; [now apply poisson_prob_pos | now apply poisson_mode].
  - exact Htop.
  - assert (Hhi' : (mh <= hi)%nat).
    { destruct (Nat.lt_ge_cases hi mh) as [Hlt|]; [|assumption].
      pose proof (poisson_before_mode lh Hlh mh Hmh hi Hlt). lra. }
    assert (Hai' : (ma <= ai)%nat).
    { destruct (Nat.lt_ge_cases ai ma) as [Hlt|]; [|assumption].
      pose proof (poisson_before_mode la Hla ma Hma ai Hlt). lra. }
    destruct (Hfirst mh ma) as [Hlt|[-> Hle]]; try lia.
    + rewrite !Hc by lia. now rewrite Eh, Ea.
    + f_equal. lia.
Qed.


End GridMode.





(** X14: on every well-formed grid the denominator of [outcome_probs],
    the sum of the strict lower triangle, the trace and the strict upper
    triangle, is the sum of all entries of the grid, also when the grid is
    not square. *)
Theorem X14_denominator_is_grid_sum (g : Np.ndarray) :
  Np.wf g ->
  Engine.raw_home g + Engine.raw_draw g + Engine.raw_away g = Np.np_sum g.
Proof.
  intros Hwf.
  rewrite raw_home_below, raw_away_above, raw_draw_diagonal by exact Hwf.
  rewrite (np_sum_cells g Hwf). apply total_mass_all.
Qed.

Lemma X14_denominator_is_grid_sum_witness :
  Engine.raw_home Engine.tie_grid + Engine.raw_draw Engine.tie_grid
  + Engine.raw_away Engine.tie_grid = Np.np_sum Engine.tie_grid.
Proof. apply (X14_denominator_is_grid_sum Engine.tie_grid). reflexivity. Defined.

(** X15: on a well-formed grid of non-negative entries whose sum is not
    zero, [outcome_probs] returns three finite values between 0 and 1. *)
Theorem X15_non_negative_grid (g : Np.ndarray) :
  Np.wf g ->
  (forall h a, (h < Np.rows g)%nat -> (a < Np.cols g)%nat -> 0 <= Np.cell g h a) ->
  Np.np_sum g <> 0 ->
  exists ph pd pa,
    Engine.outcome_probs g = (Np.Finite ph, Np.Finite pd, Np.Finite pa) /\
    0 <= ph <= 1 /\ 0 <= pd <= 1 /\ 0 <= pa <= 1.
Proof.
  intros Hwf Hc Hs.
  pose proof (sum_cells_nonneg (fun h a => (a <? h)%nat) g Hc) as Hb.
  pose proof (sum_cells_nonneg (fun h a => (a =? h)%nat) g Hc) as Hd.
  pose proof (sum_cells_nonneg (fun h a => (h <? a)%nat) g Hc) as Ha.
  fold (Engine.below_diagonal g) in Hb. fold (Engine.on_diagonal g) in Hd.
  fold (Engine.above_diagonal g) in Ha.
  assert (Ht : Engine.total_mass g = Np.np_sum g)
    by (rewrite (np_sum_cells g Hwf); apply total_mass_all).
  assert (Hpos : 0 < Engine.total_mass g).
  { rewrite Ht in *. unfold Engine.total_mass in Ht. lra. }
  rewrite (outcome_probs_regions g Hwf), !np_div_finite by lra.
  eexists _, _, _. split; [reflexivity|].
  unfold Engine.total_mass in *.
  repeat split; apply share_bounds_le; lra.
Qed.

Lemma X15_non_negative_grid_witness :
  exists ph pd pa,
    Engine.outcome_probs Engine.tie_grid = (Np.Finite ph, Np.Finite pd, Np.Finite pa) /\
    0 <= ph <= 1 /\ 0 <= pd <= 1 /\ 0 <= pa <= 1.
Proof.
  apply (X15_non_negative_grid Engine.tie_grid).
  - reflexivity.
  - intros h a Hh Ha. cbn in Hh, Ha.
    destruct h as [|[|h]]; [| |lia]; (destruct a as [|[|a]]; [| |lia]);
      cbv [Np.cell Engine.tie_grid Np.cols Np.data Np.shape snd nth Nat.mul Nat.add];
      lra.
  - unfold Np.np_sum, Rsum. cbn [Np.data Engine.tie_grid fold_right]. lra.
Defined.

(** X16: on a well-formed grid the most likely scoreline is undefined
    ([np.argmax] raises) exactly when the grid has no row or no column. *)
Theorem X16_scoreline_of_empty_grid (g : Np.ndarray) :
  Np.wf g ->
  (Engine.most_likely_scoreline g = None <-> (Np.rows g = 0 \/ Np.cols g = 0)%nat).
Proof.
  intros Hwf. split.
  - intros Hn.
    destruct (Nat.eq_dec (Np.rows g) 0) as [|Hr]; [now left|].
    destruct (Nat.eq_dec (Np.cols g) 0) as [|Hc]; [now right|].
    destruct (most_likely_spec g Hwf) as (hi & ai & Hm & _); [lia | lia |].
    congruence.
  - intros H0. red in Hwf.
    assert (Hl : length (Np.data g) = 0%nat) by (destruct H0 as [E|E]; rewrite E in Hwf; lia).
    unfold Engine.most_likely_scoreline, Np.np_argmax.
    destruct (Np.data g); [reflexivity | discriminate].
Qed.

Lemma X16_scoreline_of_empty_grid_witness :
  Engine.most_likely_scoreline (Np.np_zeros 0 3) = None.
Proof.
  apply (proj2 (X16_scoreline_of_empty_grid (Np.np_zeros 0 3) eq_refl)).
  left. reflexivity.
Defined.

(** ** Fetching with retries *)

Section Fetch.

Import Json Adapters.

Variable net : nat -> attempt.

Lemma loop_miss fuel st :
  answer_of (net (requested st)) = None ->
  get_json_loop net (S fuel) st = get_json_loop net fuel (sleep (sent st)).
Proof.
  intros H. cbn [get_json_loop]. unfold answer_of in H.
  destruct (net (requested st)) as [|code [j|]]; try reflexivity;
    destruct (code =? 200)%Z; try discriminate; reflexivity.
Qed.

Lemma loop_hit fuel st j :
  answer_of (net (requested st)) = Some j ->
  get_json_loop net (S fuel) st = (j, sent st).
Proof.
  intros H. cbn [get_json_loop]. unfold answer_of in H.
  destruct (net (requested st)) as [|code [j'|]]; try discriminate.
  destruct (code =? 200)%Z; [|discriminate]. now injection H as ->.
Qed.

(** Rounds that all miss use up the fuel, one request and one sleep
    each. *)
Lemma loop_all_miss fuel : forall st,
  (forall k, (requested st <= k < requested st + fuel)%nat -> answer_of (net k) = None) ->
  get_json_loop net fuel st
  = (JNull, {| requested := requested st + fuel; slept := slept st + fuel |}).
Proof.
  induction fuel as [|fuel IH]; intros st Hmiss.
  - cbn [get_json_loop]. rewrite !Nat.add_0_r. now destruct st.
  - rewrite loop_miss by (apply Hmiss; lia).
    rewrite IH.
    + cbn [sleep sent requested slept]. do 2 f_equal; lia.
    + intros k Hk. cbn [sleep sent requested] in Hk. apply Hmiss. lia.
Qed.

(** The first round that hits ends the loop. *)
Lemma loop_first_hit fuel : forall st i j,
  (requested st <= i < requested st + fuel)%nat ->
  answer_of (net i) = Some j ->
  (forall k, (requested st <= k < i)%nat -> answer_of (net k) = None) ->
  get_json_loop net fuel st
  = (j, {| requested := S i; slept := slept st + (i - requested st) |}).
Proof.
  induction fuel as [|fuel IH]; intros st i j Hi Hhit Hmiss; [lia|].
  destruct (Nat.eq_dec i (requested st)) as [->|Hne].
  - rewrite (loop_hit fuel st j Hhit). unfold sent.
    do 2 f_equal. lia.
  - rewrite loop_miss by (apply Hmiss; lia).
    rewrite (IH (sleep (sent st)) i j).
    + cbn [sleep sent requested slept]. do 2 f_equal. lia.
    + cbn [sleep sent requested]. lia.
    + exact Hhit.
    + intros k Hk. cbn [sleep sent requested] in Hk. apply Hmiss. lia.
Qed.

(** The loop in terms of its last request. *)
Lemma loop_last fuel : forall st,
  (0 < fuel)%nat ->
  let '(j, st') := get_json_loop net fuel st in
  (requested st < requested st' <= requested st + fuel)%nat /\
  j = helper_get_json (net (requested st' - 1)) /\
  (slept st' - slept st = requested st' - requested st
   \/ S (slept st' - slept st) = requested st' - requested st)%nat /\
  (slept st <= slept st')%nat.
Proof.
  induction fuel as [|fuel IH]; intros st Hf; [lia|].
  destruct (answer_of (net (requested st))) as [j|] eqn:E.
  - rewrite (loop_hit fuel st j E). cbn [sent requested slept].
    replace (S (requested st) - 1)%nat with (requested st) by lia.
    repeat split; try lia.
    unfold answer_of in E. unfold helper_get_json.
    destruct (net (requested st)) as [|code [j'|]]; try discriminate.
    destruct (code =? 200)%Z; congruence.
  - rewrite (loop_miss fuel st E).
    destruct fuel as [|fuel].
    + cbn [get_json_loop sleep sent requested slept].
      replace (S (requested st) - 1)%nat with (requested st) by lia.
      repeat split; try lia.
      unfold answer_of in E. unfold helper_get_json.
      destruct (net (requested st)) as [|code [j'|]]; try reflexivity.
      destruct (code =? 200)%Z; [discriminate | reflexivity].
      destruct (code =? 200)%Z; reflexivity.
    + specialize (IH (sleep (sent st)) ltac:(lia)).
      destruct (get_json_loop net (S fuel) (sleep (sent st))) as [j st'].
      cbn [sleep sent requested slept] in IH.
      destruct IH as (H1 & H2 & H3 & H4). repeat split; try lia. exact H2.
Qed.

End Fetch.

(** X17: [get_json] returns the document of the first attempt, among the
    first retry + 1, that answers with status 200 and a body that decodes;
    it has then sent one request per attempt up to that one and slept once
    per failed attempt. *)
Theorem X17_get_json_first_success (net : nat -> Adapters.attempt) (retry : Z)
    (i : nat) (j : Json.json) :
  (Z.of_nat i < retry + 1)%Z ->
  Adapters.answer_of (net i) = Some j ->
  (forall k, (k < i)%nat -> Adapters.answer_of (net k) = None) ->
  Adapters.get_json net retry
  = (j, {| Adapters.requested := S i; Adapters.slept := i |}).
Proof.
  intros Hi Hhit Hmiss. unfold Adapters.get_json.
  rewrite (loop_first_hit net _ _ i j); cbn [Adapters.requested Adapters.slept].
  - do 2 f_equal. lia.
  - lia.
  - exact Hhit.
  - intros k Hk. apply Hmiss. lia.
Qed.

Lemma X17_get_json_first_success_witness :
  Adapters.get_json (Adapters.flaky Adapters.two_matches) 2
  = (Adapters.two_matches, {| Adapters.requested := 3; Adapters.slept := 2 |}).
Proof.
  apply (X17_get_json_first_success (Adapters.flaky Adapters.two_matches) 2 2).
  - lia.
  - reflexivity.
  - intros k Hk. destruct k as [|[|k]]; [reflexivity | reflexivity | lia].
Defined.

(** X18: when none of the first retry + 1 attempts delivers a document,
    [get_json] returns [None] after exactly retry + 1 requests and as many
    sleeps; with a negative [retry] it sends no request at all. *)
Theorem X18_get_json_gives_up (net : nat -> Adapters.attempt) (retry : Z) :
  (forall k, (Z.of_nat k < retry + 1)%Z -> Adapters.answer_of (net k) = None) ->
  Adapters.get_json net retry
  = (Json.JNull, {| Adapters.requested := Z.to_nat (retry + 1);
                    Adapters.slept := Z.to_nat (retry + 1) |}).
Proof.
  intros Hmiss. unfold Adapters.get_json.
  rewrite loop_all_miss; [reflexivity|].
  intros k Hk. cbn [Adapters.requested] in Hk. apply Hmiss. lia.
Qed.

Lemma X18_get_json_gives_up_witness :
  Adapters.get_json Adapters.down 2
  = (Json.JNull, {| Adapters.requested := 3; Adapters.slept := 3 |}) /\
  Adapters.get_json (Adapters.flaky Adapters.two_matches) (-1)
  = (Json.JNull, {| Adapters.requested := 0; Adapters.slept := 0 |}).
Proof.
  split.
  - apply (X18_get_json_gives_up Adapters.down 2). reflexivity.
  - apply (X18_get_json_gives_up (Adapters.flaky Adapters.two_matches) (-1)).
    intros k Hk. lia.
Defined.

(** X19: with a non-negative [retry], [get_json] of [app.py] sends
    between 1 and retry + 1 requests, sleeps once per request or once less,
    and returns what [get_json] of [utils/api_helpers.py] returns on the
    last request sent. *)
Theorem X19_get_json_last_request (net : nat -> Adapters.attempt) (retry : Z) :
  (0 <= retry)%Z ->
  let '(j, st) := Adapters.get_json net retry in
  (1 <= Adapters.requested st <= Z.to_nat (retry + 1))%nat /\
  (Adapters.slept st = Adapters.requested st
   \/ S (Adapters.slept st) = Adapters.requested st) /\
  j = Adapters.helper_get_json (net (Adapters.requested st - 1)%nat).
Proof.
  intros Hr. unfold Adapters.get_json.
  pose proof (loop_last net (Z.to_nat (retry + 1))
                {| Adapters.requested := 0; Adapters.slept := 0 |} ltac:(lia)) as H.
  destruct (Adapters.get_json_loop net (Z.to_nat (retry + 1))
              {| Adapters.requested := 0; Adapters.slept := 0 |}) as [j st].
  cbn [Adapters.requested Adapters.slept] in H.
  destruct H as (H1 & H2 & H3 & H4). repeat split; try lia. exact H2.
Qed.

Lemma X19_get_json_last_request_witness :
  let '(j, st) := Adapters.get_json (Adapters.flaky Adapters.no_matches) 1 in
  (1 <= Adapters.requested st <= Z.to_nat (1 + 1))%nat /\
  (Adapters.slept st = Adapters.requested st
   \/ S (Adapters.slept st) = Adapters.requested st) /\
  j = Adapters.helper_get_json
        (Adapters.flaky Adapters.no_matches (Adapters.requested st - 1)%nat).
Proof.
  apply (X19_get_json_last_request (Adapters.flaky Adapters.no_matches) 1). lia.
Defined.

(** ** Unpacking the answers *)

Section Unpack.

Import Json Adapters.

Lemma get_json_down net retry :
  (forall k, (k < Z.to_nat (retry + 1))%nat -> answer_of (net k) = None) ->
  fst (get_json net retry) = JNull.
Proof.
  intros H. unfold get_json. rewrite loop_all_miss; [reflexivity|].
  intros k Hk. cbn [requested] in Hk. apply H. lia.
Qed.

Lemma get_json_first net retry i j :
  (i < Z.to_nat (retry + 1))%nat -> answer_of (net i) = Some j ->
  (forall k, (k < i)%nat -> answer_of (net k) = None) ->
  fst (get_json net retry) = j.
Proof.
  intros Hi Hhit Hmiss. unfold get_json.
  rewrite (loop_first_hit net _ _ i j); cbn [requested]; try assumption; try lia.
  - reflexivity.
  - intros k Hk. apply Hmiss. lia.
Qed.

Lemma lookup_none_nil k : lookup k [] = None.
Proof. reflexivity. Qed.

(** The matches of an object. *)
Lemma recent_matches_of_object kv :
  recent_matches_of (JObj kv)
  = Returned (match lookup "matches" kv with Some (JList l) => l | _ => [] end).
Proof.
  unfold recent_matches_of. destruct kv as [|item kv]; [reflexivity|].
  cbn [truthy negb py_in bind].
  destruct (lookup "matches" (item :: kv)) as [v|] eqn:E; cbn [negb].
  - cbn [getitem_str]. rewrite E. cbn [bind]. now destruct v.
  - reflexivity.
Qed.

Lemma recent_matches_of_threw j e :
  recent_matches_of j = Threw e -> e = TypeError /\ forall kv, j <> JObj kv.
Proof.
  intros H. destruct j as [| b | z | x | s | l | kv].
  - discriminate.
  - destruct b; cbn in H; [|discriminate]. split; [congruence | discriminate].
  - unfold recent_matches_of in H. destruct (negb (truthy (JInt z))); [discriminate|].
    cbn in H. split; [congruence | discriminate].
  - unfold recent_matches_of in H. destruct (negb (truthy (JFloat x))); [discriminate|].
    cbn in H. split; [congruence | discriminate].
  - unfold recent_matches_of in H. destruct (negb (truthy (JStr s))); [discriminate|].
    cbn [py_in bind] in H. destruct (contains "matches" s); cbn in H; [|discriminate].
    split; [congruence | discriminate].
  - unfold recent_matches_of in H. destruct (negb (truthy (JList l))); [discriminate|].
    cbn [py_in bind] in H. destruct (existsb (is_str "matches") l); cbn in H; [|discriminate].
    split; [congruence | discriminate].
  - rewrite recent_matches_of_object in H. discriminate.
Qed.

Lemma matches_hit_null : matches_hit JNull = Returned None.
Proof. reflexivity. Qed.

Lemma matches_hit_object kv :
  matches_hit (JObj kv)
  = Returned (match lookup "matches" kv with
              | Some (JList (x :: l)) => Some (x :: l)
              | _ => None
              end).
Proof.
  unfold matches_hit. destruct kv as [|item kv]; [reflexivity|].
  cbn [truthy negb py_get bind].
  destruct (lookup "matches" (item :: kv)) as [[| | | | |[|x l]|]|]; reflexivity.
Qed.

(** The statuses before the first hit are passed over. *)
Lemma first_hit_app answer pre sts :
  (forall s, In s pre -> matches_hit (answer s) = Returned None) ->
  first_hit answer (pre ++ sts) = first_hit answer sts.
Proof.
  induction pre as [|s pre IH]; intros H; [reflexivity|].
  cbn [app first_hit]. rewrite (H s (or_introl eq_refl)).
  apply IH. intros s' Hin. apply H. now right.
Qed.

Lemma first_hit_none answer sts :
  (forall s, In s sts -> matches_hit (answer s) = Returned None) ->
  first_hit answer sts = Returned [].
Proof.
  intros H. rewrite <- (app_nil_r sts). now rewrite first_hit_app.
Qed.

End Unpack.

(** X20: [team_recent_matches] returns the empty list when its three
    attempts all fail, and the list stored under "matches" (the empty list
    when there is none or it is not a list) when the first attempt that
    answers delivers an object.  It raises only on a document that is not
    an object, and then a [TypeError]. *)
Theorem X20_team_recent_matches (net : nat -> Adapters.attempt) :
  ((forall k, (k < 3)%nat -> Adapters.answer_of (net k) = None) ->
   Adapters.team_recent_matches net = Json.Returned []) /\
  (forall i kv,
     (i < 3)%nat -> Adapters.answer_of (net i) = Some (Json.JObj kv) ->
     (forall k, (k < i)%nat -> Adapters.answer_of (net k) = None) ->
     Adapters.team_recent_matches net
     = Json.Returned (match Json.lookup "matches" kv with
                      | Some (Json.JList l) => l
                      | _ => []
                      end)) /\
  (forall e,
     Adapters.team_recent_matches net = Json.Threw e ->
     e = Json.TypeError /\ forall kv, fst (Adapters.get_json net 2) <> Json.JObj kv).
Proof.
  unfold Adapters.team_recent_matches. split; [|split].
  - intros H. rewrite (get_json_down net 2) by exact H. reflexivity.
  - intros i kv Hi Hhit Hmiss.
    rewrite (get_json_first net 2 i (Json.JObj kv)) by assumption.
    apply recent_matches_of_object.
  - intros e. apply recent_matches_of_threw.
Qed.

Lemma X20_team_recent_matches_witness :
  Adapters.team_recent_matches Adapters.down = Json.Returned [] /\
  Adapters.team_recent_matches (Adapters.flaky Adapters.two_matches)
  = Json.Returned [Json.JObj [("id"%string, Json.JInt 7)];
                   Json.JObj [("id"%string, Json.JInt 8)]].
Proof.
  split.
  - apply (proj1 (X20_team_recent_matches Adapters.down)). reflexivity.
  - apply (proj1 (proj2 (X20_team_recent_matches (Adapters.flaky Adapters.two_matches)))
             2%nat [("count"%string, Json.JInt 2);
                    ("matches"%string, Json.JList [Json.JObj [("id"%string, Json.JInt 7)];
                                                   Json.JObj [("id"%string, Json.JInt 8)]])]).
    + lia.
    + reflexivity.
    + intros k Hk. destruct k as [|[|k]]; [reflexivity | reflexivity | lia].
Defined.

(** X21: [list_matches_any_status] asks for LIVE, SCHEDULED, IN_PLAY,
    PAUSED, TIMED and FINISHED in this order and returns the matches of
    the first status whose document is an object with a non-empty list
    under "matches", passing over the statuses whose fetch failed or whose
    object has no such list; it returns the empty list when every fetch
    fails. *)
Theorem X21_first_status_with_matches (net : string -> nat -> Adapters.attempt) :
  (forall pre status post kv l,
     Adapters.statuses = pre ++ status :: post ->
     (forall s, In s pre ->
        fst (Adapters.get_json (net s) 2) = Json.JNull \/
        exists kv', fst (Adapters.get_json (net s) 2) = Json.JObj kv' /\
                    forall l', Json.lookup "matches" kv' = Some (Json.JList l') -> l' = []) ->
     fst (Adapters.get_json (net status) 2) = Json.JObj kv ->
     Json.lookup "matches" kv = Some (Json.JList l) ->
     l <> [] ->
     Adapters.list_matches_any_status net = Json.Returned l) /\
  ((forall s k, In s Adapters.statuses -> (k < 3)%nat ->
      Adapters.answer_of (net s k) = None) ->
   Adapters.list_matches_any_status net = Json.Returned []).
Proof.
  unfold Adapters.list_matches_any_status. split.
  - intros pre status post kv l Hsplit Hpre Hdoc Hl Hne.
    rewrite Hsplit, first_hit_app.
    + cbn [Adapters.first_hit]. rewrite Hdoc, matches_hit_object, Hl.
      destruct l; [now elim Hne | reflexivity].
    + intros s Hin. destruct (Hpre s Hin) as [->|(kv' & -> & Hkv')];
        [reflexivity|].
      rewrite matches_hit_object.
      destruct (Json.lookup "matches" kv') as [[| | | | |[|x l']|]|] eqn:E;
        try reflexivity.
      specialize (Hkv' _ eq_refl). discriminate.
  - intros Hdown. apply first_hit_none. intros s Hin.
    rewrite (get_json_down (net s) 2); [reflexivity|].
    intros k Hk. apply Hdown; [exact Hin | exact Hk].
Qed.

Lemma X21_first_status_with_matches_witness :
  Adapters.list_matches_any_status
    (fun status =>
       if String.eqb status "LIVE" then Adapters.down
       else if String.eqb status "SCHEDULED" then Adapters.flaky Adapters.no_matches
       else Adapters.flaky Adapters.two_matches)
  = Json.Returned [Json.JObj [("id"%string, Json.JInt 7)];
                   Json.JObj [("id"%string, Json.JInt 8)]].
Proof.
  apply (proj1 (X21_first_status_with_matches _)
           ["LIVE"; "SCHEDULED"]%string "IN_PLAY"%string
           ["PAUSED"; "TIMED"; "FINISHED"]%string
           [("count"%string, Json.JInt 2);
            ("matches"%string, Json.JList [Json.JObj [("id"%string, Json.JInt 7)];
                                           Json.JObj [("id"%string, Json.JInt 8)]])]).
  - reflexivity.
  - intros s [<-|[<-|[]]].
    + left. reflexivity.
    + right. exists [("matches"%string, Json.JList [])]. split; [reflexivity|].
      intros l' E. cbn in E. congruence.
  - reflexivity.
  - reflexivity.
  - discriminate.
Defined.

(** X22: [get_weather] falls back to ("unknown", 18.0, 60) when the API
    key is missing or empty, when its three attempts all fail, and when the
    document is an object without "weather" or without "main".  With that
    description the estimator returns, and returns the undampened rates. *)
Theorem X22_weather_fallback (py_float : Json.json -> Json.outcome R)
    (py_int : Json.json -> Json.outcome Z)
    (weather_key : option string) (net : nat -> Adapters.attempt) :
  (weather_key = None \/ weather_key = Some ""%string \/
   (forall k, (k < 3)%nat -> Adapters.answer_of (net k) = None) \/
   (exists kv, fst (Adapters.get_json net 2) = Json.JObj kv /\
               (Json.lookup "weather" kv = None \/ Json.lookup "main" kv = None))) ->
  Adapters.get_weather py_float py_int weather_key net
  = Json.Returned (Json.JStr "unknown", 18.0, 60%Z) /\
  forall hs as_,
    Rates.estimate hs as_ "unknown" = Rates.estimate hs as_ "clear" /\
    exists lh la, Rates.estimate hs as_ "unknown" = Some (lh, la).
Proof.
  intros H. split.
  - unfold Adapters.get_weather.
    destruct weather_key as [key|]; [|reflexivity].
    destruct (Str.is_empty key) eqn:Ek; [reflexivity|].
    destruct H as [H|[H|[H|(kv & Hdoc & Hkv)]]].
    + discriminate.
    + injection H as ->. discriminate.
    + rewrite (get_json_down net 2) by exact H. reflexivity.
    + rewrite Hdoc. unfold Adapters.weather_of.
      destruct kv as [|item kv]; [reflexivity|].
      cbn [Json.truthy negb Json.py_in Json.bind].
      destruct (Json.lookup "weather" (item :: kv)) as [w|]; [|reflexivity].
      cbn [negb]. destruct Hkv as [Hw|Hm]; [discriminate|].
      rewrite Hm. reflexivity.
  - intros hs as_.
    rewrite (estimate_eq hs as_ "unknown" false), (estimate_eq hs as_ "clear" false)
      by reflexivity.
    split; [reflexivity | eauto].
Qed.

Lemma X22_weather_fallback_witness :
  Adapters.get_weather (fun _ => Json.Threw Json.TypeError)
    (fun _ => Json.Threw Json.TypeError) (Some "key"%string)
    (Adapters.flaky Adapters.no_matches)
  = Json.Returned (Json.JStr "unknown", 18.0, 60%Z).
Proof.
  apply (X22_weather_fallback _ _ (Some "key"%string) (Adapters.flaky Adapters.no_matches)).
  right. right. right.
  exists [("matches"%string, Json.JList [])]. split; [reflexivity|].
  left. reflexivity.
Defined.

(** ** The competitions on offer *)

Section Competitions.

Import Json Adapters.

Variable py_str : json -> string.

Lemma tier_one_of_objects objs :
  tier_one_of (map JObj objs) = Returned (map JObj (filter tier_one objs)).
Proof.
  induction objs as [|kv objs IH]; [reflexivity|].
  cbn [map tier_one_of filter]. rewrite IH.
  unfold is_tier_one. cbn [py_get bind]. fold (tier_one kv).
  now destruct (tier_one kv).
Qed.

Lemma lookup_dict_set k v d k' :
  lookup k' (dict_set k v d) = if String.eqb k' k then Some v else lookup k' d.
Proof.
  induction d as [|[k0 v0] d IH]; cbn [dict_set lookup].
  - reflexivity.
  - destruct (String.eqb_spec k k0) as [->|Hne]; cbn [lookup].
    + destruct (String.eqb_spec k' k0); reflexivity.
    + rewrite IH. destruct (String.eqb_spec k' k0) as [->|]; [|reflexivity].
      destruct (String.eqb_spec k0 k); [congruence | reflexivity].
Qed.

(** The dict comprehension over objects that all have a name and a
    code. *)
Lemma labelled_objects objs : forall d,
  (forall kv, In kv objs ->
     exists name code, lookup "name" kv = Some name /\ lookup "code" kv = Some code) ->
  exists d',
    labelled py_str (map JObj objs) d = Returned d' /\
    (forall k v, lookup k d' = Some v ->
       lookup k d = Some v \/
       exists kv name, In kv objs /\ lookup "name" kv = Some name /\
                       lookup "code" kv = Some v /\ k = label py_str name v) /\
    (forall k, lookup k d <> None -> lookup k d' <> None) /\
    (forall kv name code, In kv objs ->
       lookup "name" kv = Some name -> lookup "code" kv = Some code ->
       lookup (label py_str name code) d' <> None).
Proof.
  induction objs as [|kv objs IH]; intros d Hobjs.
  - exists d. cbn [map labelled]. repeat split; auto.
  - destruct (Hobjs kv (or_introl eq_refl)) as (name & code & Hn & Hc).
    cbn [map labelled getitem_str]. rewrite Hn, Hc. cbn [bind].
    destruct (IH (dict_set (label py_str name code) code d)) as (d' & E & H1 & H2 & H3).
    { intros kv' Hin. apply Hobjs. now right. }
    exists d'. split; [exact E|]. split; [|split].
    + intros k v Hk. destruct (H1 k v Hk) as [Hd|(kv' & name' & Hin & Hn' & Hc' & Hl)].
      * rewrite lookup_dict_set in Hd.
        destruct (String.eqb_spec k (label py_str name code)) as [->|]; [|now left].
        injection Hd as <-. right. exists kv, name.
        repeat split; auto. now left.
      * right. exists kv', name'. repeat split; auto. now right.
    + intros k Hk. apply H2. rewrite lookup_dict_set.
      destruct (String.eqb k (label py_str name code)); [discriminate | exact Hk].
    + intros kv' name' code' [<-|Hin] Hn' Hc'.
      * rewrite Hn in Hn'. rewrite Hc in Hc'. injection Hn' as <-. injection Hc' as <-.
        apply H2. rewrite lookup_dict_set, String.eqb_refl. discriminate.
      * now apply (H3 kv' name' code').
Qed.

End Competitions.

(** X23: on a document whose "competitions" is a list of objects in which
    every TIER_ONE competition has a name and a code, [list_competitions]
    returns a dict that offers exactly the TIER_ONE competitions: every
    entry maps the label "name (code)" of a TIER_ONE competition to its
    code, and the label of every TIER_ONE competition is a key.  When the
    three attempts all fail the dict is empty. *)
Theorem X23_only_tier_one (py_str : Json.json -> string)
    (net : nat -> Adapters.attempt) :
  (forall kv objs,
     fst (Adapters.get_json net 2) = Json.JObj kv ->
     Json.lookup "competitions" kv = Some (Json.JList (map Json.JObj objs)) ->
     (forall c, In c objs -> Adapters.tier_one c = true ->
        exists name code,
          Json.lookup "name" c = Some name /\ Json.lookup "code" c = Some code) ->
     exists d,
       Adapters.list_competitions py_str net = Json.Returned d /\
       (forall k v, Json.lookup k d = Some v ->
          exists c name, In c objs /\ Adapters.tier_one c = true /\
            Json.lookup "name" c = Some name /\ Json.lookup "code" c = Some v /\
            k = Adapters.label py_str name v) /\
       (forall c name code, In c objs -> Adapters.tier_one c = true ->
          Json.lookup "name" c = Some name -> Json.lookup "code" c = Some code ->
          Json.lookup (Adapters.label py_str name code) d <> None)) /\
  ((forall k, (k < 3)%nat -> Adapters.answer_of (net k) = None) ->
   Adapters.list_competitions py_str net = Json.Returned []).
Proof.
  unfold Adapters.list_competitions. split.
  - intros kv objs Hdoc Hcomps Hshape. rewrite Hdoc.
    unfold Adapters.competitions_of.
    destruct kv as [|item kv]; [discriminate|].
    cbn [Json.truthy negb Json.getitem_str]. rewrite Hcomps.
    cbn [Json.bind Json.py_iter]. rewrite tier_one_of_objects. cbn [Json.bind].
    destruct (labelled_objects py_str (filter Adapters.tier_one objs) []) as (d & E & H1 & _ & H3).
    { intros c Hin. apply filter_In in Hin. destruct Hin. now apply Hshape. }
    exists d. split; [exact E|]. split.
    + intros k v Hk. destruct (H1 k v Hk) as [Hd|(c & name & Hin & Hn & Hc & Hl)];
        [discriminate|].
      apply filter_In in Hin. destruct Hin. exists c, name. auto.
    + intros c name code Hin Ht. apply H3. apply filter_In. auto.
  - intros Hdown. rewrite (get_json_down net 2) by exact Hdown. reflexivity.
Qed.

Lemma X23_only_tier_one_witness :
  exists d,
    Adapters.list_competitions (fun j => match j with Json.JStr s => s | _ => ""%string end)
      (Adapters.flaky
         (Json.JObj [("competitions"%string,
                      Json.JList (map Json.JObj
                        [[("name"%string, Json.JStr "Premier League");
                          ("code"%string, Json.JStr "PL");
                          ("plan"%string, Json.JStr "TIER_ONE")];
                         [("name"%string, Json.JStr "Cup");
                          ("plan"%string, Json.JStr "TIER_FOUR")]]))]))
    = Json.Returned d /\
    Json.lookup "Premier League (PL)" d = Some (Json.JStr "PL") /\
    Json.lookup "Cup ()" d = None.
Proof.
  destruct (proj1 (X23_only_tier_one
                     (fun j => match j with Json.JStr s => s | _ => ""%string end)
                     (Adapters.flaky
                        (Json.JObj [("competitions"%string,
                           Json.JList (map Json.JObj
                             [[("name"%string, Json.JStr "Premier League");
                               ("code"%string, Json.JStr "PL");
                               ("plan"%string, Json.JStr "TIER_ONE")];
                              [("name"%string, Json.JStr "Cup");
                               ("plan"%string, Json.JStr "TIER_FOUR")]]))])))
              _ _ eq_refl eq_refl) as (d & E & _ & _).
  - intros c [<-|[<-|[]]] Ht; [|discriminate Ht].
    eexists _, _. split; reflexivity.
  - exists d. split; [exact E|].
    vm_compute in E. injection E as <-. split; reflexivity.
Defined.

(** ** Predictions from poor data *)

Section Degraded.

Import Form Rates Np Engine.

(** The whole prediction from the two rates, when the home rate is the
    larger one. *)
Lemma predict_from_rates hs as_ desc lh la mh ma :
  estimate hs as_ desc = Some (lh, la) ->
  INR mh < lh <= INR mh + 1 -> INR ma < la <= INR ma + 1 ->
  (mh <= 6)%nat -> (ma <= 6)%nat -> la < lh ->
  exists p ph pd pa,
    predict hs as_ desc = Some p /\
    Engine.lh p = lh /\ Engine.la p = la /\ scoreline p = (mh, ma) /\
    probs p = (Finite ph, Finite pd, Finite pa) /\ pa < ph.
Proof.
  intros He Hmh Hma Hh Ha Hlt.
  destruct (estimate_bounds hs as_ desc lh la He) as [Bh Ba].
  destruct (predict_returns hs as_ desc lh la He) as (g & hi & ai & Hg & Hm & _ & Hp).
  rewrite (grid_mode lh la 6 g mh ma) in Hm; try lra; try assumption.
  injection Hm as <- <-.
  eexists _, _, _, _. split; [exact Hp|].
  cbn [Engine.lh Engine.la scoreline probs]. repeat split.
  assert (Hpos : 0 < total_mass g)
    by (apply (grid_total_pos lh la 6 g); [lra | lra | exact Hg]).
  apply Rmult_lt_compat_r; [now apply Rinv_0_lt_compat|].
  apply (home_favoured lh la 6 g); try lra; try exact Hg; lia.
Qed.

Lemma estimate_default d desc :
  dampened desc = Some d ->
  estimate default_summary default_summary desc
  = Some (if d then 1.23956 else 1.3048, if d then 1.10675 else 1.165).
Proof.
  intros Hd. rewrite (estimate_eq _ _ desc d Hd). unfold base_rates.
  cbn [fst snd gf ga default_summary].
  destruct d; f_equal; f_equal; unfold Rmax, Rmin; repeat destruct (Rle_dec _ _); lra.
Qed.

Lemma estimate_scoreless d desc hs as_ :
  gf hs = 0 -> ga hs = 0 -> gf as_ = 0 -> ga as_ = 0 ->
  dampened desc = Some d ->
  estimate hs as_ desc = Some (if d then 0.2128 else 0.224, if d then 0.19 else 0.2).
Proof.
  intros H1 H2 H3 H4 Hd. rewrite (estimate_eq _ _ desc d Hd). unfold base_rates.
  cbn [fst snd]. rewrite H1, H2, H3, H4.
  destruct d; f_equal; f_equal; unfold Rmax, Rmin; repeat destruct (Rle_dec _ _); lra.
Qed.

Lemma stats_scoreless team_id ms :
  ms <> [] -> valid_count ms = 0%nat ->
  gf (recent_team_stats team_id ms) = 0 /\ ga (recent_team_stats team_id ms) = 0.
Proof.
  intros Hne Hv. destruct ms as [|m ms]; [now elim Hne|].
  rewrite (stats_all_invalid team_id m ms Hv). cbn [gf ga]. split; lra.
Qed.

End Degraded.

(** X24: predictions from poor data.  When the windows of both teams are
    empty (the fetches failed), the pipeline predicts 1-1 from the default
    summaries, with the rates 1.3048 and 1.165 (1.23956 and 1.10675 in rain
    or snow).  When both windows hold records but none with a score, it
    predicts 0-0 with the floor rates 0.224 and 0.2 (0.2128 and 0.19 in rain
    or snow).  In both cases the home win is more likely than the away
    win. *)
Theorem X24_degraded_predictions (recent : Z -> list Form.match_record)
    (home_id : Z) (away_id : option Z) (desc : string) (d : bool) :
  let away_key := match away_id with Some i => i | None => home_id end in
  Rates.dampened desc = Some d ->
  (recent home_id = [] -> recent away_key = [] ->
   exists p ph pd pa,
     Engine.predict_match recent home_id away_id desc = Some p /\
     Engine.lh p = (if d then 1.23956 else 1.3048) /\
     Engine.la p = (if d then 1.10675 else 1.165) /\
     Engine.scoreline p = (1%nat, 1%nat) /\
     Engine.probs p = (Np.Finite ph, Np.Finite pd, Np.Finite pa) /\ pa < ph) /\
  (recent home_id <> [] -> recent away_key <> [] ->
   Form.valid_count (recent home_id) = 0%nat ->
   Form.valid_count (recent away_key) = 0%nat ->
   exists p ph pd pa,
     Engine.predict_match recent home_id away_id desc = Some p /\
     Engine.lh p = (if d then 0.2128 else 0.224) /\
     Engine.la p = (if d then 0.19 else 0.2) /\
     Engine.scoreline p = (0%nat, 0%nat) /\
     Engine.probs p = (Np.Finite ph, Np.Finite pd, Np.Finite pa) /\ pa < ph).
Proof.
  intros away_key Hd. unfold Engine.predict_match, Engine.form_pair.
  fold away_key. split.
  - intros -> ->. cbn [Form.recent_team_stats].
    apply predict_from_rates; try lia.
    + now apply estimate_default.
    + destruct d; cbn [INR]; lra.
    + destruct d; cbn [INR]; lra.
    + destruct d; lra.
  - intros Hh Ha Vh Va.
    destruct (stats_scoreless home_id _ Hh Vh) as [G1 A1].
    destruct (stats_scoreless away_key _ Ha Va) as [G2 A2].
    apply predict_from_rates; try lia.
    + now apply estimate_scoreless.
    + destruct d; cbn [INR]; lra.
    + destruct d; cbn [INR]; lra.
    + destruct d; lra.
Qed.

Lemma X24_degraded_predictions_witness :
  (exists p ph pd pa,
     Engine.predict_match (fun _ => []) 1 (Some 2%Z) "light rain" = Some p /\
     Engine.lh p = 1.3048 /\ Engine.la p = 1.165 /\
     Engine.scoreline p = (1%nat, 1%nat) /\
     Engine.probs p = (Np.Finite ph, Np.Finite pd, Np.Finite pa) /\ pa < ph) /\
  (exists p ph pd pa,
     Engine.predict_match (fun _ => [Form.no_score]) 1 None "snow" = Some p /\
     Engine.lh p = 0.2128 /\ Engine.la p = 0.19 /\
     Engine.scoreline p = (0%nat, 0%nat) /\
     Engine.probs p = (Np.Finite ph, Np.Finite pd, Np.Finite pa) /\ pa < ph).
Proof.
  split.
  - apply (proj1 (X24_degraded_predictions (fun _ => []) 1 (Some 2%Z) "light rain" false
                    eq_refl)); reflexivity.
  - apply (proj2 (X24_degraded_predictions (fun _ => [Form.no_score]) 1 None "snow" true
                    eq_refl)); try discriminate; reflexivity.
Defined.

(** X25: bad weather never raises a rate and never takes more than five
    percent off.  For every description on which the estimator returns,
    each rate lies between 0.95 times the rate for "clear" and the rate for
    "clear". *)
Theorem X25_weather_only_dampens (hs as_ : Form.summary) (desc : string)
    (lh la : R) :
  Rates.estimate hs as_ desc = Some (lh, la) ->
  exists lh0 la0,
    Rates.estimate hs as_ "clear" = Some (lh0, la0) /\
    0.95 * lh0 <= lh <= lh0 /\ 0.95 * la0 <= la <= la0.
Proof.
  intros He. destruct (estimate_inv hs as_ desc lh la He) as (d & _ & -> & ->).
  rewrite estimate_clear. eexists _, _. split; [reflexivity|].
  destruct (base_rates_floor hs as_) as [Fh Fa].
  destruct d; split; unfold Rmin; repeat destruct (Rle_dec _ _); lra.
Qed.

Lemma X25_weather_only_dampens_witness :
  exists lh0 la0,
    Rates.estimate Form.goalless Form.goalless "clear" = Some (lh0, la0) /\
    0.95 * lh0 <= 0.2128 <= lh0 /\ 0.95 * la0 <= 0.19 <= la0.
Proof.
  apply (X25_weather_only_dampens Form.goalless Form.goalless "rain").
  apply (estimate_scoreless true "rain" Form.goalless Form.goalless);
    cbn [Form.gf Form.ga Form.goalless]; try lra; reflexivity.
Defined.

(** ** Letter case in the weather description *)

Section LetterCase.

Import Str Rates.

Lemma isspace_lower_char c : isspace (lower_char c) = isspace c.
Proof. destruct c as [[] [] [] [] [] [] [] []]; vm_compute; reflexivity. Qed.

Lemma lower_char_idem c : lower_char (lower_char c) = lower_char c.
Proof. destruct c as [[] [] [] [] [] [] [] []]; vm_compute; reflexivity. Qed.

Lemma lower_idem s : lower (lower s) = lower s.
Proof.
  induction s as [|c s IH]; [reflexivity|].
  cbn [lower]. now rewrite lower_char_idem, IH.
Qed.

Lemma lower_append s t : lower (s ++ t) = (lower s ++ lower t)%string.
Proof.
  induction s as [|c s IH]; [reflexivity|].
  cbn [append lower]. now rewrite IH.
Qed.

Lemma is_empty_lower s : is_empty (lower s) = is_empty s.
Proof. now destruct s. Qed.

(** Lowering a description lowers each of its words. *)
Lemma split_from_lower s : forall cur,
  split_from (lower cur) (lower s) = map lower (split_from cur s).
Proof.
  induction s as [|c s IH]; intros cur; cbn [lower split_from].
  - rewrite is_empty_lower. now destruct (is_empty cur).
  - rewrite isspace_lower_char, is_empty_lower.
    destruct (isspace c).
    + destruct (is_empty cur); cbn [map]; [|f_equal]; apply (IH EmptyString).
    + rewrite <- IH, lower_append. reflexivity.
Qed.

Lemma dampened_lower desc : dampened (lower desc) = dampened desc.
Proof.
  unfold dampened, split.
  change (split_from EmptyString (lower desc))
    with (split_from (lower EmptyString) (lower desc)).
  rewrite (split_from_lower desc EmptyString).
  destruct (split_from EmptyString desc) as [|w ws]; [reflexivity|].
  cbn [map]. now rewrite lower_idem.
Qed.

End LetterCase.

(** X26: the weather test ignores letter case.  Two descriptions that
    agree after lowering give the same result, in particular a description
    and its lowercase form. *)
Theorem X26_case_insensitive_weather (hs as_ : Form.summary) (desc desc' : string) :
  Str.lower desc = Str.lower desc' ->
  Rates.estimate hs as_ desc = Rates.estimate hs as_ desc'.
Proof.
  intros Hl.
  assert (Hd : Rates.dampened desc = Rates.dampened desc')
    by (rewrite <- (dampened_lower desc), <- (dampened_lower desc'); now rewrite Hl).
  unfold Rates.estimate. now rewrite Hd.
Qed.

Lemma X26_case_insensitive_weather_witness :
  Rates.estimate Form.home_2_1 Form.away_1_15 "SNOW showers"
  = Rates.estimate Form.home_2_1 Form.away_1_15 "snow Showers".
Proof.
  apply (X26_case_insensitive_weather Form.home_2_1 Form.away_1_15
           "SNOW showers" "snow Showers").
  reflexivity.
Defined.
